(** * Penetration-depth gridding pipeline of mtpy

    A shallow embedding of [mtpy/imaging/penetration_depth_3d_profile.py]
    and the properties of it that the specification states.

    Conventions of the embedding.
    - A Python [float] is a real number ([R]); the not-a-number value that
      the raster is initialised with is a constructor of its own ([nan]).
    - A Python [int] is an integer ([Z]); list and array subscripts follow
      Python's rules, negative subscripts included.
    - An exception, [sys.exit] included, ends a computation: a computation
      yields the records it logged and either a value or the exception.
    - [print], matplotlib and [scipy.interpolate.griddata] are not part of
      the embedding; the plotting functions return what they hand over to
      them.  The EDI parser [mt.MT] is external: a station file is
      represented by the record it parses to. *)

From Stdlib Require Import Reals Lra Lia ZArith String.
From Stdlib Require Import QArith Qabs.
From Stdlib Require Floats.PrimFloat Floats.SpecFloat Floats.FloatOps.
From stdpp Require Import base list.

(** ** The Python runtime *)

Module Py.

Inductive exn : Type :=
| IndexError
| ValueError
| UnboundLocalError
| IOError
| ZeroDivisionError
| OverflowError
| Exception (msg : string)
| SystemExit (code : Z).

Inductive level : Type := DEBUG | INFO | WARN | ERROR | CRITICAL.

(** A record of the module's logger: its level and its format string. *)
Definition logrec : Type := (level * string)%type.

Inductive outcome (A : Type) : Type :=
| Return (a : A)
| Raise (e : exn).
Arguments Return {A} a.
Arguments Raise {A} e.

(** A computation: what it logged, and how it ended. *)
Definition M (A : Type) : Type := (list logrec * outcome A)%type.

Definition logs {A} (m : M A) : list logrec := m.1.
Definition result {A} (m : M A) : outcome A := m.2.

#[global] Instance M_ret : MRet M := λ A a, ([], Return a).

#[global] Instance M_bind : MBind M := λ A B f m,
  match m.2 with
  | Return a => (m.1 ++ (f a).1, (f a).2)
  | Raise e => (m.1, Raise e)
  end.

Definition raise {A} (e : exn) : M A := ([], Raise e).
Definition log (l : level) (fmt : string) : M unit := ([(l, fmt)], Return tt).

(** [sys.exit(code)] raises [SystemExit]. *)
Definition sys_exit {A} (code : Z) : M A := raise (SystemExit code).

(** The status the interpreter ends with: 0 after a normal end, the code
    of a [SystemExit], and 1 after any other uncaught exception. *)
Definition exit_status {A} (m : M A) : Z :=
  match result m with
  | Return _ => 0
  | Raise (SystemExit code) => code
  | Raise _ => 1
  end.

(** The position a subscript [i] denotes in a sequence of length [n]. *)
Definition norm_index (n : nat) (i : Z) : option nat :=
  if (0 <=? i)%Z then
    if (i <? Z.of_nat n)%Z then Some (Z.to_nat i) else None
  else
    if (- Z.of_nat n <=? i)%Z then Some (Z.to_nat (Z.of_nat n + i)) else None.

(** [l[i]] *)
Definition getitem {A} (l : list A) (i : Z) : M A :=
  match norm_index (length l) i ≫= (l !!.) with
  | Some a => mret a
  | None => raise IndexError
  end.

(** [min(l)] and [max(l)]: the first smallest and the first largest item. *)
Definition py_min (l : list R) : M R :=
  match l with
  | [] => raise ValueError
  | x :: xs => mret (foldl (λ m y, if Rlt_dec y m then y else m) x xs)
  end.

Definition py_max (l : list R) : M R :=
  match l with
  | [] => raise ValueError
  | x :: xs => mret (foldl (λ m y, if Rgt_dec y m then y else m) x xs)
  end.

(** [int(round(x))] of Python 2: halves are rounded away from zero. *)
Definition py_round (x : R) : Z :=
  if Rle_dec 0 x then Zfloor (x + / 2) else Zceil (x - / 2).

(** [x in l] for strings. *)
Definition py_in (x : string) (l : list string) : bool :=
  existsb (String.eqb x) l.

(** [int(x)] for a float: the fraction is dropped, towards zero. *)
Definition py_trunc (x : R) : Z :=
  if Rle_dec 0 x then Zfloor x else Zceil x.

(** The items of iterating over a string: its characters, as strings. *)
Definition py_chars (s : string) : list string :=
  map (λ c, String c EmptyString) (list_ascii_of_string s).

End Py.
Import Py.

(** ** numpy *)

Module Np.

(** A complex number, and [np.abs] of it. *)
Definition complex : Type := (R * R)%type.
Definition abs_complex (z : complex) : R := sqrt (z.1 * z.1 + z.2 * z.2).

(** An element of a float array. *)
Inductive cell : Type :=
| nan
| val (d : R).

(** A two-dimensional float array: [shape] and rows. *)
Record ndarray : Type := mk_ndarray {
  shape0 : nat;
  shape1 : nat;
  data : list (list cell)
}.

(** [a = np.zeros((n0, n1)); a[:, :] = v] *)
Definition full (n0 n1 : Z) (v : cell) : M ndarray :=
  if ((n0 <? 0) || (n1 <? 0))%Z then raise ValueError
  else mret (mk_ndarray (Z.to_nat n0) (Z.to_nat n1)
               (replicate (Z.to_nat n0) (replicate (Z.to_nat n1) v))).

(** [a[i, j] = v] *)
Definition setitem2 (a : ndarray) (i j : Z) (v : cell) : M ndarray :=
  match norm_index (shape0 a) i, norm_index (shape1 a) j with
  | Some r, Some c =>
      mret (mk_ndarray (shape0 a) (shape1 a) (alter (<[c := v]>) r (data a)))
  | _, _ => raise IndexError
  end.

(** What [a[r, c]] holds, for a position inside the array. *)
Definition at2 (a : ndarray) (r c : nat) : option cell :=
  data a !! r ≫= (.!! c).

(** [int(np.ceil(x))] *)
Definition ceil (x : R) : Z := Zceil x.

(** An operation on two one-dimensional arrays, element by element; an
    array of one element is stretched to the length of the other. *)
Definition broadcast (f : R → R → R) (a b : list R) : M (list R) :=
  if decide (length a = length b) then mret (zip_with f a b)
  else match a, b with
       | [x], _ => mret (map (f x) b)
       | _, [y] => mret (map (λ x, f x y) a)
       | _, _ => raise ValueError
       end.

(** [(a == b).all()] for two arrays of the same length. *)
Definition all_eq (a b : list R) : bool :=
  forallb (λ p, if Req_dec_T p.1 p.2 then true else false) (zip a b).

End Np.
Import Np.

(** ** The station objects of [mtpy.core.mt] *)

Module Mt.

(** The four entries [m[0,0]], [m[0,1]], [m[1,0]], [m[1,1]] of a 2x2 array. *)
Record mat2 : Type := mk_mat2 { m00 : R; m01 : R; m10 : R; m11 : R }.

(** The impedance object [Z]: [freq], [resistivity] (one 2x2 array per
    frequency) and [det], the pair of the determinants and their errors. *)
Record Z_obj : Type := mk_Z {
  freq : list R;
  resistivity : list mat2;
  det : list complex * list complex
}.

(** [mt.MT(afile)] *)
Record MT_obj : Type := mk_MT {
  station : string;
  lat : R;
  lon : R;
  mt_Z : Z_obj
}.

End Mt.
Import Mt.

(** ** [mtpy/imaging/penetration_depth_3d_profile.py] *)

Module PenDepth.

Open Scope R_scope.

(** [np.sqrt(1.0 / (2.0 * np.pi * 4 * np.pi * 10 ** (-7)))] *)
Definition scale_param : R :=
  sqrt (1 / (2 * PI * 4 * PI * powerRZ 10 (-7))).

(** [get_bounding_box] *)
Definition get_bounding_box (latlons : list (R * R))
  : M ((R * R) * (R * R)) :=
  let lats := map fst latlons in
  let lons := map snd latlons in
  minlat ← py_min lats;
  maxlat ← py_max lats;
  minlon ← py_min lons;
  maxlon ← py_max lons;
  mret ((minlon, maxlon), (minlat, maxlat)).

(** [get_index] *)
Definition get_index (lat lon minlat minlon pixelsize : R) (offset : Z)
  : Z * Z :=
  let index_x := (lon - minlon) / pixelsize in
  let index_y := (lat - minlat) / pixelsize in
  let ix := py_round index_x in
  let iy := py_round index_y in
  ((ix + offset)%Z, (iy + offset)%Z).

(** [get_index2] *)
Definition get_index2 (lat lon LL_lat LL_lon pixelsize : R) : Z * Z :=
  let index_x := (lon - LL_lon) / pixelsize in
  let index_y := (lat - LL_lat) / pixelsize in
  (py_trunc index_x, py_trunc index_y).

(** The loop of [check_period_values]. *)
Fixpoint check_period_loop (p0 : R) (pcounter : Z) (period_list : list R)
  : M bool :=
  match period_list with
  | [] => mret true
  | per :: rest =>
      if Req_dec_T per p0
      then check_period_loop p0 (pcounter + 1)%Z rest
      else log WARN "Period Not Equal!! p0 VS per: %s VS %s";; mret false
  end.

(** [check_period_values] *)
Definition check_period_values (period_list : list R) : M bool :=
  log DEBUG "%s";;
  p0 ← getitem period_list 0;
  check_period_loop p0 0 period_list.

(** The depth that [get_penetration_depth] computes for one station. *)
Definition penetration_depth_of (zeta : Z_obj) (per_index : Z)
    (whichrho : string) (per : R) : M R :=
  if String.eqb whichrho "zxy" then
    rho ← getitem (resistivity zeta) per_index;
    mret (- scale_param * sqrt (m01 rho * per))
  else if String.eqb whichrho "zyx" then
    rho ← getitem (resistivity zeta) per_index;
    mret (- scale_param * sqrt (m10 rho * per))
  else if String.eqb whichrho "det" then
    d ← getitem (det zeta).1 per_index;
    let det2 := abs_complex d in
    mret (- scale_param * sqrt (0.2 * per * det2 * per))
  else
    log CRITICAL "un-supported method to compute penetration depth: %s";;
    sys_exit 100.

(** The loop of [get_penetration_depth] over the station files, with the
    four lists it appends to. *)
Fixpoint penetration_depth_loop (edi_file_list : list MT_obj)
    (per_index : Z) (whichrho : string)
    (stations : list string) (periods pendep : list R)
    (latlons : list (R * R))
  : M (list string * list R * list R * list (R * R)) :=
  match edi_file_list with
  | [] => mret (stations, periods, pendep, latlons)
  | mt_obj :: rest =>
      let stations := stations ++ [station mt_obj] in
      let latlons := latlons ++ [(lat mt_obj, lon mt_obj)] in
      let zeta := mt_Z mt_obj in
      if (per_index >=? Z.of_nat (length (freq zeta)))%Z then
        log DEBUG "Number of frequecies (Max per_index)= %s";;
        raise (Exception "Index out_of_range Error: period index must be less than number of periods in zeta.freq")
      else
        f ← getitem (freq zeta) per_index;
        let per := 1 / f in
        let periods := periods ++ [per] in
        penetration_depth ← penetration_depth_of zeta per_index whichrho per;
        penetration_depth_loop rest per_index whichrho
          stations periods (pendep ++ [penetration_depth]) latlons
  end.

(** [get_penetration_depth]; what [check_period_values] returns is not
    used. *)
Definition get_penetration_depth (edi_file_list : list MT_obj)
    (per_index : Z) (whichrho : string)
  : M (list string * list R * list R * list (R * R)) :=
  '(stations, periods, pendep, latlons) ←
    penetration_depth_loop edi_file_list per_index whichrho [] [] [] [];
  check_period_values periods;;
  mret (stations, periods, pendep, latlons).

(** The first loop over [enumerate(latlons)] of the two plotting
    functions: the raster is filled. *)
Fixpoint raster_loop (latlons : list (R * R)) (iter : nat)
    (pendep : list R) (minlat minlon pixelsize : R) (zdep : ndarray)
  : M ndarray :=
  match latlons with
  | [] => mret zdep
  | pr :: rest =>
      let '(xi, yi) := get_index pr.1 pr.2 minlat minlon pixelsize 1 in
      d ← getitem pendep (Z.of_nat iter);
      zdep ← setitem2 zdep (Z.of_nat (shape0 zdep) - yi - 1)%Z xi
               (val (Rabs d));
      raster_loop rest (S iter) pendep minlat minlon pixelsize zdep
  end.

(** [a[iter] = v] for a one-dimensional array or one row of [points]. *)
Definition setitem1 {A} (a : list A) (iter : Z) (v : A) : M (list A) :=
  match norm_index (length a) iter with
  | Some k => mret (<[k := v]> a)
  | None => raise IndexError
  end.

(** The second loop over [enumerate(latlons)]: the sample points and
    values handed to [griddata]. *)
Fixpoint points_loop (latlons : list (R * R)) (iter : nat)
    (pendep : list R) (minlat minlon pixelsize : R) (zdep : ndarray)
    (points : list (R * R)) (values : list R)
  : M (list (R * R) * list R) :=
  match latlons with
  | [] => mret (points, values)
  | pr :: rest =>
      let '(i, j) := get_index pr.1 pr.2 minlat minlon pixelsize 1 in
      points ← setitem1 points (Z.of_nat iter)
                 (IZR (Z.of_nat (shape0 zdep) - j), IZR i);
      d ← getitem pendep (Z.of_nat iter);
      values ← setitem1 values (Z.of_nat iter) (Rabs d);
      points_loop rest (S iter) pendep minlat minlon pixelsize zdep
        points values
  end.

(** What a plotting function hands to the presentation layer: the raster
    shown by the first [imshow], and the points and values given to
    [griddata]. *)
Definition plot_data : Type := (ndarray * list (R * R) * list R)%type.

(** The statements from [bbox=get_bounding_box(latlons)] to the call of
    [griddata]; they are the same in [plot_latlon_depth_profile] and in
    [plot_gridded_profile]. *)
Definition grid_samples (latlons : list (R * R)) (pendep : list R)
  : M plot_data :=
  bbox ← get_bounding_box latlons;
  log DEBUG "Bounding Box %s";;
  let xgrids := bbox.1.2 - bbox.1.1 in
  let ygrids := bbox.2.2 - bbox.2.1 in
  log DEBUG "xy grids %s %s";;
  let minlat := bbox.2.1 in
  let minlon := bbox.1.1 in
  let pixelsize := 0.002 in
  let nx := Np.ceil (xgrids / pixelsize) in
  let ny := Np.ceil (ygrids / pixelsize) in
  let pad := 4%Z in
  let nx2 := (nx + pad)%Z in
  let ny2 := (ny + pad)%Z in
  zdep ← full ny2 nx2 nan;
  log DEBUG "zdep shape %s";;
  zdep ← raster_loop latlons 0 pendep minlat minlon pixelsize zdep;
  let points := replicate (length latlons) (0, 0) in
  let values := replicate (length latlons) 0 in
  '(points, values) ←
    points_loop latlons 0 pendep minlat minlon pixelsize zdep points values;
  mret (zdep, points, values).

Section Environment.

(** [glob.glob(os.path.join(edi_dir, '*.edi'))], each file parsed. *)
Variable glob_edi : string → list MT_obj.
(** [os.path.isdir] *)
Variable isdir : string → bool.
(** [int(s)] for a string; [None] when it raises [ValueError]. *)
Variable py_int : string → option Z.
(** ['%.2f' % num] *)
Variable fmt_2f : R → string.

(** [plot_latlon_depth_profile] *)
Definition plot_latlon_depth_profile (edi_dir : string)
    (period_index : Z) (zcomponent : string) : M plot_data :=
  let edifiles := glob_edi edi_dir in
  log DEBUG "edi files: %s";;
  '(stations, periods, pendep, latlons) ←
    get_penetration_depth edifiles period_index zcomponent;
  ok ← check_period_values periods;
  if negb ok then
    log ERROR "The period values are NOT equal - Please check: %s";;
    raise (Exception "Period values Not Equal across MT stations EDI files. Please check")
  else
    Period0 ← getitem periods 0;
    grid_samples latlons pendep.

(** [plot_gridded_profile] *)
Definition plot_gridded_profile (edi_dir : string)
    (period_index : Z) (zcomponent : string) : M plot_data :=
  let edifiles := glob_edi edi_dir in
  log DEBUG "edi files: %s";;
  '(stations, periods, pendep, latlons) ←
    get_penetration_depth edifiles period_index zcomponent;
  r ← grid_samples latlons pendep;
  Period0 ← getitem periods 0;
  mret r.

(** [get_penetration_depths_from_edi_file] *)
Definition get_penetration_depths_from_edi_file (edifile : MT_obj)
    (rholist : list string) : M (R * R * list R * list R) :=
  log DEBUG "processing the edi file %s";;
  let mt_obj := edifile in
  let zeta := mt_Z mt_obj in
  let freqs := freq zeta in
  log DEBUG "the scale parameter= %s";;
  let periods := map (λ f, 1 / f) freqs in
  let depth a := map (λ x, scale_param * sqrt x) a in
  pd ← (if py_in "zxy" rholist then
          a ← broadcast Rmult (map m01 (resistivity zeta)) periods;
          mret (Some (depth a))
        else mret None);
  pd ← (if py_in "zyx" rholist then
          a ← broadcast Rmult (map m10 (resistivity zeta)) periods;
          mret (Some (depth a))
        else mret pd);
  pd ← (if py_in "det" rholist then
          let det2 := map abs_complex (det zeta).1 in
          a ← broadcast Rmult (map (Rmult 0.2) periods) det2;
          b ← broadcast Rmult a periods;
          mret (Some (depth b))
        else mret pd);
  match pd with
  | Some penetration_depth =>
      mret (lat mt_obj, lon mt_obj, periods, penetration_depth)
  | None => raise UnboundLocalError
  end.

(** The loop of [create_csv_file] over the station files. *)
Fixpoint csv_loop (edi_files : list MT_obj) (PER_LIST0 : option (list R))
    (latlon_dep : list (R * R * string)) : M (list (R * R * string)) :=
  match edi_files with
  | [] => mret latlon_dep
  | afile :: rest =>
      log DEBUG "processing %s";;
      '(lat, lon, per, depths) ←
        get_penetration_depths_from_edi_file afile ["det"%string];
      let depth_string := String.concat "," (map fmt_2f depths) in
      match PER_LIST0 with
      | None =>
          csv_loop rest (Some per) (latlon_dep ++ [(lat, lon, depth_string)])
      | Some per0 =>
          if bool_decide (length per = length per0) && all_eq per per0
          then csv_loop rest PER_LIST0
                 (latlon_dep ++ [(lat, lon, depth_string)])
          else log ERROR "MT Periods Not Equal !! %s VS %s";;
               csv_loop rest PER_LIST0 latlon_dep
      end
  end.

(** [open(path, "wb")] followed by [writer.writerows(rows)] on the file:
    [None] when the rows were written, or the exception that ended the
    statement (an [IOError] when the file cannot be opened). *)
Variable write_rows : string → list (R * R * string) → option exn.

(** [create_csv_file]; without an [outputcsv] the rows go to a fixed path. *)
Definition create_csv_file (edi_dir : string) (outputcsv : option string)
    (zcomponent : string) : M (list (R * R * string)) :=
  let edi_files := glob_edi edi_dir in
  log DEBUG "%s";;
  latlon_dep ← csv_loop edi_files None [];
  let outputcsv :=
    match outputcsv with
    | None => "E:/tmp/MT_pen_depth.csv"%string
    | Some path => path
    end in
  log INFO "Saving to csv file: %s";;
  match write_rows outputcsv latlon_dep with
  | None => mret tt
  | Some e => raise e
  end;;
  mret latlon_dep.

(** [mt.MT(path)] for a path that is not known to be a station file. *)
Variable read_edi : string → M MT_obj.

(** The first loop of [plot_bar3d_depth] over the station files; a file
    is read when the loop reaches it. *)
Fixpoint bar3d_depth_loop (edifiles : list (M MT_obj)) (per_index : Z)
    (periods pen_depth : list R) (stations : list string)
    (latlons : list (R * R))
  : M (list R * list R * list string * list (R * R)) :=
  match edifiles with
  | [] => mret (periods, pen_depth, stations, latlons)
  | afile :: rest =>
      mt_obj ← afile;
      let latlons := latlons ++ [(lat mt_obj, lon mt_obj)] in
      let zeta := mt_Z mt_obj in
      if (per_index >=? Z.of_nat (length (freq zeta)))%Z then
        raise (Exception "Error: input period index must be less than the number of freqs in zeta.freq=%s")
      else
        f ← getitem (freq zeta) per_index;
        let per := 1 / f in
        let periods := periods ++ [per] in
        rho ← getitem (resistivity zeta) per_index;
        let penetration_depth := - scale_param * sqrt (m01 rho * per) in
        let pen_depth := pen_depth ++ [penetration_depth] in
        let stations := stations ++ [station mt_obj] in
        bar3d_depth_loop rest per_index periods pen_depth stations latlons
  end.

(** The second loop of [plot_bar3d_depth]: the positions and the heights
    of the bars. *)
Fixpoint bar3d_bars_loop (latlons : list (R * R)) (iter : nat)
    (pen_depth : list R) (LL_lat LL_lon pixelsize : R)
    (xpos ypos : list Z) (dz : list R)
  : M (list Z * list Z * list R) :=
  match latlons with
  | [] => mret (xpos, ypos, dz)
  | pr :: rest =>
      let xpos := xpos ++ [(get_index pr.1 pr.2 LL_lat LL_lon pixelsize 1).1] in
      let ypos := ypos ++ [(get_index pr.1 pr.2 LL_lat LL_lon pixelsize 1).2] in
      d ← getitem pen_depth (Z.of_nat iter);
      bar3d_bars_loop rest (S iter) pen_depth LL_lat LL_lon pixelsize
        xpos ypos (dz ++ [Rabs d])
  end.

(** What [plot_bar3d_depth] hands to [bar3d]:
    [xpos, ypos, zpos, dx, dy, dz]. *)
Definition bar3d_data : Type :=
  (list Z * list Z * list R * list R * list R * list R)%type.

(** [plot_bar3d_depth], for [edifiles] given as a path: the files of a
    directory, or else the items of iterating over the string. *)
Definition plot_bar3d_depth (edifiles : string) (per_index : Z)
  : M bar3d_data :=
  edifiles ← (if isdir edifiles then
                let edi_dir := edifiles in
                let edifiles := glob_edi edi_dir in
                log DEBUG "%s";;
                mret (map mret edifiles)
              else mret (map read_edi (py_chars edifiles)));
  '(periods, pen_depth, stations, latlons) ←
    bar3d_depth_loop edifiles per_index [] [] [] [];
  let lats := map fst latlons in
  let lons := map snd latlons in
  minlat ← py_min lats;
  maxlat ← py_max lats;
  minlon ← py_min lons;
  maxlon ← py_max lons;
  let pixelsize := 0.001 in
  let offset := 3 in
  let LL_lat := minlat - offset * pixelsize in
  let LL_lon := minlon - offset * pixelsize in
  let xgrids := maxlon - minlon in
  let ygrids := maxlat - minlat in
  let nx := xgrids / pixelsize in
  let ny := ygrids / pixelsize in
  '(xpos, ypos, dz) ←
    bar3d_bars_loop latlons 0 pen_depth LL_lat LL_lon pixelsize [] [] [];
  let num_elements := length xpos in
  let zpos := replicate num_elements 0 in
  let dx := replicate num_elements 1 in
  let dy := replicate num_elements 1 in
  Period0 ← getitem periods 0;
  mret (xpos, ypos, zpos, dx, dy, dz).

(** The statements under [if __name__=="__main__"]. *)
Definition main (argv : list string) : M unit :=
  if (Z.of_nat (length argv) <? 2)%Z then sys_exit 1
  else
    a1 ← getitem argv 1;
    if isdir a1 then
      let edi_dir := a1 in
      a2 ← getitem argv 2;
      period_index ← (match py_int a2 with
                      | Some n => mret n
                      | None => raise ValueError
                      end);
      plot_latlon_depth_profile edi_dir period_index "det";;
      mret tt
    else mret tt.

End Environment.

End PenDepth.
Import PenDepth.

(** ** Vocabulary of the properties *)

Open Scope R_scope.

(** The component selectors of the specification. *)
Definition valid_selector (whichrho : string) : Prop :=
  whichrho = "zxy"%string ∨ whichrho = "zyx"%string ∨ whichrho = "det"%string.

(** A station that has a frequency at position [i], with one resistivity
    array and one determinant per frequency. *)
Definition station_ready (i : nat) (s : MT_obj) : Prop :=
  (i < length (freq (mt_Z s)))%nat
  ∧ length (resistivity (mt_Z s)) = length (freq (mt_Z s))
  ∧ length (det (mt_Z s)).1 = length (freq (mt_Z s)).

(** The period and the depth of a station as the specification gives them:
    1/frequency[i], and k·sqrt(...) by selector. *)
Definition spec_period (i : nat) (s : MT_obj) : R :=
  1 / nth i (freq (mt_Z s)) 0.

Definition spec_depth (whichrho : string) (i : nat) (s : MT_obj) : R :=
  let period := spec_period i s in
  let rho := nth i (resistivity (mt_Z s)) (mk_mat2 0 0 0 0) in
  let d := nth i (det (mt_Z s)).1 (0, 0) in
  if String.eqb whichrho "zxy" then scale_param * sqrt (m01 rho * period)
  else if String.eqb whichrho "zyx" then scale_param * sqrt (m10 rho * period)
  else scale_param * sqrt (0.2 * period * abs_complex d * period).

(** Sample stations: two that share the period 8 s at index 0, one that
    has the period 4 s there, and one without frequencies. *)
Definition station_a : MT_obj :=
  mk_MT "a" 0 0 (mk_Z [0.125] [mk_mat2 0 100 100 0] ([(3, 4)], [(0, 0)])).
Definition station_b : MT_obj :=
  mk_MT "b" 0.01 0.02 (mk_Z [0.125] [mk_mat2 0 50 60 0] ([(0, 2)], [(0, 0)])).
Definition station_c : MT_obj :=
  mk_MT "c" 0.02 0.01 (mk_Z [0.25] [mk_mat2 0 10 20 0] ([(1, 0)], [(0, 0)])).
Definition station_empty : MT_obj :=
  mk_MT "e" 0 0 (mk_Z [] [] ([], [])).

(** A station at the place of [station_a] with another determinant, and
    the directory listings used in the examples. *)
Definition station_a2 : MT_obj :=
  mk_MT "a2" 0 0 (mk_Z [0.125] [mk_mat2 0 70 80 0] ([(6, 8)], [(0, 0)])).

Definition single_batch : string → list MT_obj :=
  λ _, [station_a].
Definition same_cell_batch : string → list MT_obj :=
  λ _, [station_a; station_a2].
Definition mismatch_batch : string → list MT_obj :=
  λ _, [station_a; station_c; station_b].

(** An array whose rows agree with its shape. *)
Definition wf_array (a : ndarray) : Prop :=
  length (data a) = shape0 a
  ∧ Forall (λ row, length row = shape1 a) (data a).

(** The (row, column) of the raster that the first loop of the plotting
    functions writes for a (latitude, longitude) pair, and the point that
    the second loop hands to [griddata] for it. *)
Definition raster_cell (minlat minlon pixelsize : R) (height : nat)
    (p : R * R) : Z * Z :=
  let '(xi, yi) := get_index p.1 p.2 minlat minlon pixelsize 1 in
  ((Z.of_nat height - yi - 1)%Z, xi).

Definition sample_point (minlat minlon pixelsize : R) (height : nat)
    (p : R * R) : R * R :=
  let '(i, j) := get_index p.1 p.2 minlat minlon pixelsize 1 in
  (IZR (Z.of_nat height - j), IZR i).

(** Equality of floats and of log levels can be tested. *)
#[global] Instance R_eq_dec : EqDecision R := Req_dec_T.

#[global] Instance level_eq_dec : EqDecision level.
Proof. solve_decision. Defined.

(** The number of records of a level in a log. *)
Definition count_level (l : level) (records : list logrec) : nat :=
  length (filter (λ r, r.1 = l) records).

(** The periods of a station, its depths for the determinant, and its row
    in the CSV table. *)
Definition station_periods (s : MT_obj) : list R :=
  map (λ f, 1 / f) (freq (mt_Z s)).

Definition det_depths (s : MT_obj) : list R :=
  map (λ x, scale_param * sqrt x)
    (zip_with Rmult
       (zip_with Rmult (map (Rmult 0.2) (station_periods s))
          (map abs_complex (det (mt_Z s)).1))
       (station_periods s)).

Definition csv_row (fmt_2f : R → string) (s : MT_obj) : R * R * string :=
  (lat s, lon s, String.concat "," (map fmt_2f (det_depths s))).

(** The file [create_csv_file] writes to. *)
Definition csv_target (outputcsv : option string) : string :=
  default "E:/tmp/MT_pen_depth.csv"%string outputcsv.

(** How [create_csv_file] ends once the table [rows] is complete: with the
    table when the write succeeded, with the write's exception otherwise. *)
Definition after_write (written : option exn) (rows : list (R * R * string))
    : outcome (list (R * R * string)) :=
  match written with
  | None => Return rows
  | Some e => Raise e
  end.

(** Two file systems: one where every file can be written, and one
    without the directory of the default path. *)
Definition any_file_writable : string → list (R * R * string) → option exn :=
  λ _ _, None.

Definition no_default_directory
    : string → list (R * R * string) → option exn :=
  λ path _,
    if String.eqb path "E:/tmp/MT_pen_depth.csv" then Some IOError else None.

(** A station with one determinant per frequency. *)
Definition csv_ready (s : MT_obj) : Prop :=
  length (det (mt_Z s)).1 = length (freq (mt_Z s)).

(** Comparisons of numerals: each test is decided by linear arithmetic. *)
Ltac decide_R :=
  let pick d := first [ destruct d; [| exfalso; lra] | destruct d; [exfalso; lra |] ] in
  repeat match goal with
    | |- context [Rlt_dec ?a ?b] => pick (Rlt_dec a b)
    | |- context [Rgt_dec ?a ?b] => pick (Rgt_dec a b)
    | |- context [Rle_dec ?a ?b] => pick (Rle_dec a b)
    | |- context [Req_dec_T ?a ?b] => pick (Req_dec_T a b)
    end.

(** ** How computations run *)

Section Running.

Context {A B : Type}.

Lemma result_bind (m : M A) (f : A → M B) :
  result (m ≫= f) =
  match result m with
  | Return a => result (f a)
  | Raise e => Raise e
  end.
Proof.
  unfold result, mbind, M_bind. destruct m as [l [a | e]]; reflexivity.
Qed.

Lemma logs_bind (m : M A) (f : A → M B) :
  logs (m ≫= f) =
  match result m with
  | Return a => logs m ++ logs (f a)
  | Raise e => logs m
  end.
Proof.
  unfold logs, result, mbind, M_bind. destruct m as [l [a | e]]; reflexivity.
Qed.

Lemma bind_ret_l (a : A) (f : A → M B) : mret a ≫= f = f a.
Proof.
  unfold mbind, M_bind, mret, M_ret. simpl. destruct (f a); reflexivity.
Qed.

Lemma bind_returns (m : M A) (f : A → M B) (a : A) :
  result m = Return a → result (m ≫= f) = result (f a).
Proof. intros H. rewrite result_bind, H. reflexivity. Qed.

Lemma bind_raises (m : M A) (f : A → M B) (e : exn) :
  result m = Raise e → result (m ≫= f) = Raise e.
Proof. intros H. rewrite result_bind, H. reflexivity. Qed.

Lemma bind_inv (m : M A) (f : A → M B) (b : B) :
  result (m ≫= f) = Return b →
  ∃ a, result m = Return a ∧ result (f a) = Return b.
Proof.
  rewrite result_bind. destruct (result m) as [a | e]; [| discriminate].
  intros H. exists a. split; [reflexivity | exact H].
Qed.

End Running.

Lemma result_log {B} (l : level) (s : string) (k : M B) :
  result (log l s;; k) = result k.
Proof. rewrite result_bind. reflexivity. Qed.

Lemma logs_log {B} (l : level) (s : string) (k : M B) :
  logs (log l s;; k) = (l, s) :: logs k.
Proof. rewrite logs_bind. reflexivity. Qed.

(** ** Subscripts *)

Lemma norm_index_nat (n k : nat) :
  (k < n)%nat → norm_index n (Z.of_nat k) = Some k.
Proof.
  intros H. unfold norm_index.
  destruct (Z.leb_spec 0 (Z.of_nat k)); [| lia].
  destruct (Z.ltb_spec (Z.of_nat k) (Z.of_nat n)); [| lia].
  rewrite Nat2Z.id. reflexivity.
Qed.

Lemma norm_index_inside (n : nat) (i : Z) :
  (0 <= i < Z.of_nat n)%Z → norm_index n i = Some (Z.to_nat i).
Proof.
  intros H. unfold norm_index.
  destruct (Z.leb_spec 0 i); [| lia].
  destruct (Z.ltb_spec i (Z.of_nat n)); [reflexivity | lia].
Qed.

Lemma getitem_lookup {A} (l : list A) (k : nat) (a : A) :
  l !! k = Some a → getitem l (Z.of_nat k) = mret a.
Proof.
  intros H. unfold getitem.
  rewrite norm_index_nat by (eapply lookup_lt_Some; eassumption).
  simpl. rewrite H. reflexivity.
Qed.

Lemma getitem_inside {A} (l : list A) (i : Z) (a : A) :
  (0 <= i)%Z → l !! Z.to_nat i = Some a → getitem l i = mret a.
Proof.
  intros Hi H. rewrite <- (Z2Nat.id i) by assumption.
  apply getitem_lookup. assumption.
Qed.

(** ** Rounding *)


Lemma py_round_nonneg (x : R) : 0 <= x → (0 <= py_round x)%Z.
Proof.
  intros H. unfold py_round. destruct (Rle_dec 0 x); [| contradiction].
  apply Zfloor_lub. simpl. lra.
Qed.

Lemma py_round_le_ceil (x : R) : 0 <= x → (py_round x <= Zceil x)%Z.
Proof.
  intros H. unfold py_round. destruct (Rle_dec 0 x); [| contradiction].
  apply le_IZR.
  pose proof (Zfloor_bound (x + / 2)) as Hf.
  pose proof (Zceil_bound x) as Hc.
  destruct (Z_le_gt_dec (Zfloor (x + / 2)) (Zceil x)) as [Hle | Hgt].
  - apply IZR_le. assumption.
  - assert (Hz : (Zceil x + 1 <= Zfloor (x + / 2))%Z) by lia.
    apply IZR_le in Hz. rewrite plus_IZR in Hz. lra.
Qed.

Lemma py_round_IZR (z : Z) : py_round (IZR z) = z.
Proof.
  unfold py_round. destruct (Rle_dec 0 (IZR z)).
  - apply Zfloor_eq. lra.
  - apply Zceil_eq. lra.
Qed.

(** ** Smallest and largest item *)

Lemma foldl_min_spec (xs : list R) (x : R) :
  let m := foldl (λ m y, if Rlt_dec y m then y else m) x xs in
  m ∈ x :: xs ∧ ∀ y, y ∈ x :: xs → m <= y.
Proof.
  revert x. induction xs as [| z xs IH]; intros x; simpl.
  - split; [left |]. intros y Hy. apply list_elem_of_singleton in Hy. lra.
  - destruct (Rlt_dec z x) as [Hlt | Hge].
    + destruct (IH z) as [Hin Hle]. split.
      * right. exact Hin.
      * intros y Hy. apply elem_of_cons in Hy as [-> | Hy].
        -- specialize (Hle z (list_elem_of_here _ _)). lra.
        -- apply Hle. exact Hy.
    + destruct (IH x) as [Hin Hle]. split.
      * apply elem_of_cons in Hin as [-> | Hin]; [left | right; right; exact Hin].
      * intros y Hy. apply elem_of_cons in Hy as [-> | Hy].
        -- apply Hle. left.
        -- apply elem_of_cons in Hy as [-> | Hy].
           ++ specialize (Hle x (list_elem_of_here _ _)). lra.
           ++ apply Hle. right. exact Hy.
Qed.

Lemma foldl_max_spec (xs : list R) (x : R) :
  let m := foldl (λ m y, if Rgt_dec y m then y else m) x xs in
  m ∈ x :: xs ∧ ∀ y, y ∈ x :: xs → y <= m.
Proof.
  revert x. induction xs as [| z xs IH]; intros x; simpl.
  - split; [left |]. intros y Hy. apply list_elem_of_singleton in Hy. lra.
  - destruct (Rgt_dec z x) as [Hgt | Hle'].
    + destruct (IH z) as [Hin Hle]. split.
      * right. exact Hin.
      * intros y Hy. apply elem_of_cons in Hy as [-> | Hy].
        -- specialize (Hle z (list_elem_of_here _ _)). lra.
        -- apply Hle. exact Hy.
    + destruct (IH x) as [Hin Hle]. split.
      * apply elem_of_cons in Hin as [-> | Hin]; [left | right; right; exact Hin].
      * intros y Hy. apply elem_of_cons in Hy as [-> | Hy].
        -- apply Hle. left.
        -- apply elem_of_cons in Hy as [-> | Hy].
           ++ specialize (Hle x (list_elem_of_here _ _)). lra.
           ++ apply Hle. right. exact Hy.
Qed.

(** ** The period check *)

Lemma check_period_loop_spec (p0 : R) (l : list R) (pcounter : Z) :
  ∃ b : bool, result (check_period_loop p0 pcounter l) = Return b
    ∧ (b = true ↔ ∀ per, per ∈ l → per = p0).
Proof.
  revert pcounter. induction l as [| per rest IH]; intros pcounter; simpl.
  - exists true. split; [reflexivity |]. split; [| reflexivity].
    intros _ per Hper. inversion Hper.
  - destruct (Req_dec_T per p0) as [-> | Hne].
    + destruct (IH (pcounter + 1)%Z) as (b & Hb & Hiff).
      exists b. split; [exact Hb |]. rewrite Hiff. split.
      * intros H per Hper. apply elem_of_cons in Hper as [-> | Hper]; auto.
      * intros H per Hper. apply H. right. exact Hper.
    + exists false. split; [reflexivity |]. split; [discriminate |].
      intros H. exfalso. apply Hne, H. left.
Qed.

Lemma check_period_values_cons (p0 : R) (rest : list R) :
  ∃ b : bool, result (check_period_values (p0 :: rest)) = Return b
    ∧ (b = true ↔ ∀ per, per ∈ p0 :: rest → per = p0).
Proof.
  unfold check_period_values.
  rewrite result_log. change (getitem (p0 :: rest) 0) with (mret p0 : M R).
  rewrite (bind_returns _ _ p0) by reflexivity.
  apply check_period_loop_spec.
Qed.

(** C5. On a non-empty list of periods [check_period_values] returns a
    Boolean, and it is [True] exactly when every element equals the first
    one, with no tolerance; it returns [True] on [8.0, 8.0, 8.0] and
    [False] on [8.0, 8.0001, 8.0]. *)
Theorem check_period_values_exact_equality :
  (∀ (p0 : R) (rest : list R),
     ∃ b : bool, result (check_period_values (p0 :: rest)) = Return b
       ∧ (b = true ↔ ∀ per, per ∈ p0 :: rest → per = p0))
  ∧ result (check_period_values [8; 8; 8]) = Return true
  ∧ result (check_period_values [8; 8.0001; 8]) = Return false.
Proof.
  split; [| split].
  - apply check_period_values_cons.
  - unfold check_period_values. simpl. decide_R. reflexivity.
  - unfold check_period_values. simpl. decide_R. reflexivity.
Qed.

(** ** The bounding box *)

Lemma get_bounding_box_cons (p : R * R) (rest : list (R * R)) :
  get_bounding_box (p :: rest) =
  mret ((foldl (λ m y, if Rlt_dec y m then y else m) p.2 (map snd rest),
         foldl (λ m y, if Rgt_dec y m then y else m) p.2 (map snd rest)),
        (foldl (λ m y, if Rlt_dec y m then y else m) p.1 (map fst rest),
         foldl (λ m y, if Rgt_dec y m then y else m) p.1 (map fst rest))).
Proof. reflexivity. Qed.

Lemma get_bounding_box_bounds (p : R * R) (rest : list (R * R)) :
  ∃ minlon maxlon minlat maxlat : R,
    get_bounding_box (p :: rest) = mret ((minlon, maxlon), (minlat, maxlat))
    ∧ minlon <= maxlon ∧ minlat <= maxlat
    ∧ minlat ∈ map fst (p :: rest) ∧ maxlat ∈ map fst (p :: rest)
    ∧ minlon ∈ map snd (p :: rest) ∧ maxlon ∈ map snd (p :: rest)
    ∧ ∀ q, q ∈ p :: rest →
        minlat <= q.1 <= maxlat ∧ minlon <= q.2 <= maxlon.
Proof.
  rewrite get_bounding_box_cons.
  destruct (foldl_min_spec (map snd rest) p.2) as [Hin1 Hle1].
  destruct (foldl_max_spec (map snd rest) p.2) as [Hin2 Hle2].
  destruct (foldl_min_spec (map fst rest) p.1) as [Hin3 Hle3].
  destruct (foldl_max_spec (map fst rest) p.1) as [Hin4 Hle4].
  eexists _, _, _, _. split; [reflexivity |].
  assert (Hq : ∀ q, q ∈ p :: rest →
            q.1 ∈ p.1 :: map fst rest ∧ q.2 ∈ p.2 :: map snd rest).
  { intros q Hq. split.
    - apply (list_elem_of_fmap_2 fst) in Hq. exact Hq.
    - apply (list_elem_of_fmap_2 snd) in Hq. exact Hq. }
  repeat split; try assumption.
  - specialize (Hle1 _ (list_elem_of_here _ _)).
    specialize (Hle2 _ (list_elem_of_here _ _)). lra.
  - specialize (Hle3 _ (list_elem_of_here _ _)).
    specialize (Hle4 _ (list_elem_of_here _ _)). lra.
  - apply Hle3, Hq, H.
  - apply Hle4, Hq, H.
  - apply Hle1, Hq, H.
  - apply Hle2, Hq, H.
Qed.

(** C7. On a non-empty list of (latitude, longitude) pairs
    [get_bounding_box] returns ((min_lon, max_lon), (min_lat, max_lat)):
    each bound is a coordinate of the list, every coordinate lies between
    its two bounds, and so min <= max on both axes.  It returns
    ((20,30),(5,15)) on [(10,20),(15,25),(5,30)], a box with min = max on
    both axes for a single pair, and raises on the empty list. *)
Theorem get_bounding_box_spec :
  (∀ (p : R * R) (rest : list (R * R)),
     ∃ minlon maxlon minlat maxlat : R,
       result (get_bounding_box (p :: rest))
         = Return ((minlon, maxlon), (minlat, maxlat))
       ∧ minlon <= maxlon ∧ minlat <= maxlat
       ∧ minlat ∈ map fst (p :: rest) ∧ maxlat ∈ map fst (p :: rest)
       ∧ minlon ∈ map snd (p :: rest) ∧ maxlon ∈ map snd (p :: rest)
       ∧ ∀ q, q ∈ p :: rest →
           minlat <= q.1 <= maxlat ∧ minlon <= q.2 <= maxlon)
  ∧ result (get_bounding_box [(10, 20); (15, 25); (5, 30)])
      = Return ((20, 30), (5, 15))
  ∧ (∀ lat lon : R,
       result (get_bounding_box [(lat, lon)]) = Return ((lon, lon), (lat, lat)))
  ∧ result (get_bounding_box []) = Raise ValueError.
Proof.
  split; [| split; [| split]].
  - intros p rest.
    destruct (get_bounding_box_bounds p rest)
      as (minlon & maxlon & minlat & maxlat & Heq & H).
    exists minlon, maxlon, minlat, maxlat. rewrite Heq. split; [reflexivity |].
    exact H.
  - rewrite get_bounding_box_cons. simpl. decide_R. reflexivity.
  - intros lat lon. reflexivity.
  - reflexivity.
Qed.

(** ** Coordinates to pixels *)




(** ** The depths of a batch of stations *)

Lemma scale_param_nonneg : 0 <= scale_param.
Proof. apply sqrt_pos. Qed.

Lemma spec_depth_nonneg (whichrho : string) (i : nat) (s : MT_obj) :
  0 <= spec_depth whichrho i s.
Proof.
  unfold spec_depth.
  repeat destruct (String.eqb _ _);
    apply Rmult_le_pos; auto using scale_param_nonneg, sqrt_pos.
Qed.

Lemma getitem_nth {A} (l : list A) (i : nat) (d : A) :
  (i < length l)%nat → getitem l (Z.of_nat i) = mret (nth i l d).
Proof.
  intros H. apply getitem_lookup.
  destruct (lookup_lt_is_Some_2 l i H) as [a Ha].
  rewrite nth_lookup, Ha. reflexivity.
Qed.

Lemma penetration_depth_of_valid (whichrho : string) (i : nat) (s : MT_obj) :
  valid_selector whichrho → station_ready i s →
  penetration_depth_of (mt_Z s) (Z.of_nat i) whichrho (spec_period i s)
  = mret (- spec_depth whichrho i s).
Proof.
  intros Hsel (Hi & Hrho & Hdet).
  unfold penetration_depth_of, spec_depth.
  rewrite (getitem_nth (resistivity (mt_Z s)) i (mk_mat2 0 0 0 0)) by lia.
  rewrite (getitem_nth (det (mt_Z s)).1 i (0, 0)) by lia.
  destruct Hsel as [-> | [-> | ->]]; simpl;
    unfold M_bind, mret, M_ret; simpl; do 2 f_equal; ring.
Qed.

Lemma penetration_depth_loop_returns (whichrho : string) (i : nat)
    (files : list MT_obj) (stations : list string) (periods pendep : list R)
    (latlons : list (R * R)) :
  valid_selector whichrho → Forall (station_ready i) files →
  result (penetration_depth_loop files (Z.of_nat i) whichrho
            stations periods pendep latlons)
  = Return (stations ++ map station files,
            periods ++ map (spec_period i) files,
            pendep ++ map (λ s, - spec_depth whichrho i s) files,
            latlons ++ map (λ s, (lat s, lon s)) files).
Proof.
  intros Hsel Hall. revert stations periods pendep latlons.
  induction Hall as [| s rest Hs Hrest IH]; intros stations periods pendep latlons.
  - simpl. rewrite !app_nil_r. reflexivity.
  - simpl. destruct Hs as (Hi & Hrho & Hdet).
    destruct (Z.geb_spec (Z.of_nat i) (Z.of_nat (length (freq (mt_Z s)))));
      [lia |].
    rewrite (getitem_nth (freq (mt_Z s)) i 0) by assumption.
    rewrite (bind_returns _ _ (nth i (freq (mt_Z s)) 0)) by reflexivity.
    change (1 / nth i (freq (mt_Z s)) 0) with (spec_period i s).
    rewrite penetration_depth_of_valid by (assumption || (repeat split; assumption)).
    rewrite (bind_returns _ _ (- spec_depth whichrho i s)) by reflexivity.
    rewrite IH. rewrite <- !app_assoc. reflexivity.
Qed.

Lemma get_penetration_depth_returns (whichrho : string) (i : nat)
    (files : list MT_obj) :
  valid_selector whichrho → files ≠ [] → Forall (station_ready i) files →
  result (get_penetration_depth files (Z.of_nat i) whichrho)
  = Return (map station files,
            map (spec_period i) files,
            map (λ s, - spec_depth whichrho i s) files,
            map (λ s, (lat s, lon s)) files).
Proof.
  intros Hsel Hne Hall. unfold get_penetration_depth.
  erewrite bind_returns
    by (apply penetration_depth_loop_returns; eassumption).
  simpl app. destruct files as [| s rest]; [contradiction |].
  destruct (check_period_values_cons (spec_period i s)
              (map (spec_period i) rest)) as (b & Hb & _).
  simpl map. rewrite (bind_returns _ _ b) by exact Hb. reflexivity.
Qed.

(** ** An unsupported selector *)

Lemma selector_tests_fail (whichrho : string) :
  ¬ valid_selector whichrho →
  String.eqb whichrho "zxy" = false
  ∧ String.eqb whichrho "zyx" = false
  ∧ String.eqb whichrho "det" = false.
Proof.
  intros H. unfold valid_selector in H.
  repeat split; apply String.eqb_neq; intros ->; tauto.
Qed.

Lemma penetration_depth_of_unsupported (zeta : Z_obj) (i : Z)
    (whichrho : string) (per : R) :
  ¬ valid_selector whichrho →
  penetration_depth_of zeta i whichrho per
  = ([(CRITICAL, "un-supported method to compute penetration depth: %s"%string)],
     Raise (SystemExit 100)).
Proof.
  intros H. destruct (selector_tests_fail whichrho H) as (H1 & H2 & H3).
  unfold penetration_depth_of. rewrite H1, H2, H3. reflexivity.
Qed.

(** C8, as the code has it.  The selector is tested inside the loop over
    the stations, after the test of the frequency index: when the batch is
    not empty and its first station has a frequency at index [i], a
    selector outside {zxy, zyx, det} ends [get_penetration_depth] by
    [sys.exit(100)], a status other than 1, and nothing is returned. *)
Theorem unsupported_selector_exits_100
    (whichrho : string) (s : MT_obj) (rest : list MT_obj) (i : Z) :
  ¬ valid_selector whichrho →
  (0 <= i < Z.of_nat (length (freq (mt_Z s))))%Z →
  result (get_penetration_depth (s :: rest) i whichrho)
    = Raise (SystemExit 100)
  ∧ exit_status (get_penetration_depth (s :: rest) i whichrho) = 100%Z
  ∧ (100 ≠ 1)%Z.
Proof.
  intros Hsel Hi.
  assert (H : result (get_penetration_depth (s :: rest) i whichrho)
              = Raise (SystemExit 100)).
  { unfold get_penetration_depth. apply bind_raises. simpl.
    destruct (Z.geb_spec i (Z.of_nat (length (freq (mt_Z s))))); [lia |].
    destruct (lookup_lt_is_Some_2 (freq (mt_Z s)) (Z.to_nat i)) as [f Hf];
      [lia |].
    rewrite (getitem_inside _ _ f) by (lia || assumption).
    rewrite bind_ret_l. apply bind_raises.
    rewrite penetration_depth_of_unsupported by assumption. reflexivity. }
  split; [exact H |]. split; [| lia].
  unfold exit_status. rewrite H. reflexivity.
Qed.

Lemma unsupported_selector_exits_100_witness :
  result (get_penetration_depth [station_a] 0 "xy") = Raise (SystemExit 100)
  ∧ exit_status (get_penetration_depth [station_a] 0 "xy") = 100%Z
  ∧ (100 ≠ 1)%Z.
Proof.
  apply (unsupported_selector_exits_100 "xy" station_a [] 0).
  - unfold valid_selector. intros [H | [H | H]]; discriminate H.
  - simpl. lia.
Defined.

(** The claim C8 fails on an empty batch, where the selector is never
    looked at, and on a batch whose first station has no frequency at the
    index: these end with an exception other than [SystemExit]. *)
Lemma unsupported_selector_counterexample :
  ¬ valid_selector "xy"
  ∧ result (get_penetration_depth [] 0 "xy") = Raise IndexError
  ∧ exit_status (get_penetration_depth [] 0 "xy") = 1%Z
  ∧ result (get_penetration_depth [station_empty] 0 "xy")
    = Raise (Exception "Index out_of_range Error: period index must be less than number of periods in zeta.freq")
  ∧ ¬ (∀ (files : list MT_obj) (i : Z) (whichrho : string),
         ¬ valid_selector whichrho →
         result (get_penetration_depth files i whichrho)
           = Raise (SystemExit 100)).
Proof.
  assert (Hxy : ¬ valid_selector "xy").
  { unfold valid_selector. intros [H | [H | H]]; discriminate H. }
  split; [exact Hxy |].
  repeat split; try reflexivity.
  intros H. specialize (H [] 0%Z "xy"%string Hxy). discriminate H.
Qed.

(** ** Arrays *)

Lemma full_returns (n0 n1 : Z) (v : cell) :
  (0 <= n0)%Z → (0 <= n1)%Z →
  full n0 n1 v
  = mret (mk_ndarray (Z.to_nat n0) (Z.to_nat n1)
            (replicate (Z.to_nat n0) (replicate (Z.to_nat n1) v))).
Proof.
  intros H0 H1. unfold full.
  destruct (Z.ltb_spec n0 0); [lia |].
  destruct (Z.ltb_spec n1 0); [lia |]. reflexivity.
Qed.

Lemma wf_array_full (n0 n1 : nat) (v : cell) :
  wf_array (mk_ndarray n0 n1 (replicate n0 (replicate n1 v))).
Proof.
  split; simpl.
  - apply length_replicate.
  - apply Forall_replicate. apply length_replicate.
Qed.

Lemma at2_full (n0 n1 : nat) (v : cell) (r c : nat) :
  (r < n0)%nat → (c < n1)%nat →
  at2 (mk_ndarray n0 n1 (replicate n0 (replicate n1 v))) r c = Some v.
Proof.
  intros Hr Hc. unfold at2. simpl.
  rewrite lookup_replicate_2 by assumption. simpl.
  apply lookup_replicate_2. assumption.
Qed.

Lemma setitem2_inside (a : ndarray) (i j : Z) (v : cell) :
  wf_array a →
  (0 <= i < Z.of_nat (shape0 a))%Z → (0 <= j < Z.of_nat (shape1 a))%Z →
  ∃ a', setitem2 a i j v = mret a'
    ∧ wf_array a'
    ∧ shape0 a' = shape0 a ∧ shape1 a' = shape1 a
    ∧ at2 a' (Z.to_nat i) (Z.to_nat j) = Some v
    ∧ ∀ r c, (Z.of_nat r, Z.of_nat c) ≠ (i, j) → at2 a' r c = at2 a r c.
Proof.
  intros [Hlen Hrows] Hi Hj. unfold setitem2.
  rewrite (norm_index_inside _ i), (norm_index_inside _ j) by assumption.
  eexists. split; [reflexivity |].
  assert (Hr : (Z.to_nat i < length (data a))%nat) by lia.
  destruct (lookup_lt_is_Some_2 _ _ Hr) as [row Hrow].
  assert (Hrowlen : length row = shape1 a).
  { rewrite Forall_forall in Hrows. apply Hrows.
    eapply list_elem_of_lookup_2. exact Hrow. }
  repeat split; simpl.
  - rewrite length_alter. exact Hlen.
  - apply Forall_alter; [exact Hrows |].
    intros row' _ Hrow'. rewrite length_insert. exact Hrow'.
  - unfold at2. simpl. rewrite list_lookup_alter_eq, Hrow. simpl.
    apply list_lookup_insert_eq. lia.
  - intros r c Hne. unfold at2. simpl.
    destruct (decide (r = Z.to_nat i)) as [-> | Hr'].
    + rewrite list_lookup_alter_eq, Hrow. simpl.
      apply list_lookup_insert_ne. intros <-. apply Hne.
      f_equal; lia.
    + rewrite list_lookup_alter_ne by congruence. reflexivity.
Qed.

(** ** The raster loop *)

Lemma raster_loop_cons (p : R * R) (rest : list (R * R)) (iter : nat)
    (pendep : list R) (minlat minlon pixelsize : R) (zdep : ndarray) :
  raster_loop (p :: rest) iter pendep minlat minlon pixelsize zdep
  = (d ← getitem pendep (Z.of_nat iter);
     zdep' ← setitem2 zdep
               (raster_cell minlat minlon pixelsize (shape0 zdep) p).1
               (raster_cell minlat minlon pixelsize (shape0 zdep) p).2
               (val (Rabs d));
     raster_loop rest (S iter) pendep minlat minlon pixelsize zdep').
Proof. reflexivity. Qed.

Lemma raster_loop_spec (minlat minlon pixelsize : R) (pendep : list R)
    (latlons : list (R * R)) :
  ∀ (iter : nat) (zdep : ndarray),
    wf_array zdep →
    (∀ p, p ∈ latlons →
       (0 <= (raster_cell minlat minlon pixelsize (shape0 zdep) p).1
          < Z.of_nat (shape0 zdep))%Z
       ∧ (0 <= (raster_cell minlat minlon pixelsize (shape0 zdep) p).2
          < Z.of_nat (shape1 zdep))%Z) →
    (iter + length latlons <= length pendep)%nat →
    ∃ zdep',
      result (raster_loop latlons iter pendep minlat minlon pixelsize zdep)
        = Return zdep'
      ∧ wf_array zdep'
      ∧ shape0 zdep' = shape0 zdep ∧ shape1 zdep' = shape1 zdep
      ∧ (∀ k p d,
           latlons !! k = Some p → pendep !! (iter + k)%nat = Some d →
           (∀ k' p', (k < k')%nat → latlons !! k' = Some p' →
              raster_cell minlat minlon pixelsize (shape0 zdep) p'
              ≠ raster_cell minlat minlon pixelsize (shape0 zdep) p) →
           at2 zdep'
             (Z.to_nat (raster_cell minlat minlon pixelsize (shape0 zdep) p).1)
             (Z.to_nat (raster_cell minlat minlon pixelsize (shape0 zdep) p).2)
           = Some (val (Rabs d)))
      ∧ (∀ r c,
           (∀ p, p ∈ latlons →
              raster_cell minlat minlon pixelsize (shape0 zdep) p
              ≠ (Z.of_nat r, Z.of_nat c)) →
           at2 zdep' r c = at2 zdep r c).
Proof.
  induction latlons as [| p rest IH]; intros iter zdep Hwf Hin Hlen.
  - exists zdep. split; [reflexivity |]. repeat split; try apply Hwf.
    intros k p d Hk. rewrite lookup_nil in Hk. discriminate.
  - simpl in Hlen.
    destruct (lookup_lt_is_Some_2 pendep iter) as [d0 Hd0]; [lia |].
    destruct (Hin p (list_elem_of_here _ _)) as [Hrow Hcol].
    set (cell_of := raster_cell minlat minlon pixelsize (shape0 zdep)) in *.
    destruct (setitem2_inside zdep (cell_of p).1 (cell_of p).2
                (val (Rabs d0)) Hwf Hrow Hcol)
      as (a' & Hset & Hwf' & Hs0 & Hs1 & Hhit & Hmiss).
    destruct (IH (S iter) a') as (z & Hz & Hzwf & Hz0 & Hz1 & Hlast & Hkeep).
    { exact Hwf'. }
    { intros q Hq. rewrite Hs0, Hs1. apply Hin. right. exact Hq. }
    { lia. }
    rewrite Hs0 in Hlast, Hkeep. fold cell_of in Hlast, Hkeep.
    exists z. split; [| split; [exact Hzwf | split; [congruence | split; [congruence |]]]].
    + rewrite raster_loop_cons.
      rewrite (getitem_lookup _ _ _ Hd0), bind_ret_l.
      fold cell_of. rewrite Hset, bind_ret_l. exact Hz.
    + split.
      * intros k q d Hk Hd Hlater. destruct k as [| k].
        -- simpl in Hk. injection Hk as <-.
           rewrite Nat.add_0_r in Hd. rewrite Hd0 in Hd. injection Hd as <-.
           rewrite Hkeep; [exact Hhit |].
           intros q Hq. apply list_elem_of_lookup_1 in Hq as [k' Hk'].
           rewrite Z2Nat.id, Z2Nat.id by lia.
           rewrite <- surjective_pairing.
           apply (Hlater (S k') q); [lia | exact Hk'].
        -- simpl in Hk. apply (Hlast k q d Hk).
           ++ rewrite <- Hd. f_equal. lia.
           ++ intros k' q' Hlt Hk'. apply (Hlater (S k') q'); [lia | exact Hk'].
      * intros r c Hnone. rewrite Hkeep.
        -- apply Hmiss. intros Heq. apply (Hnone p (list_elem_of_here _ _)).
           rewrite (surjective_pairing (cell_of p)). symmetry. exact Heq.
        -- intros q Hq. apply Hnone. right. exact Hq.
Qed.

(** ** The loop of the sample points *)

Lemma setitem1_inside {A} (a : list A) (k : nat) (v : A) :
  (k < length a)%nat → setitem1 a (Z.of_nat k) v = mret (<[k := v]> a).
Proof.
  intros H. unfold setitem1. rewrite norm_index_nat by assumption.
  reflexivity.
Qed.

Lemma points_loop_cons (p : R * R) (rest : list (R * R)) (iter : nat)
    (pendep : list R) (minlat minlon pixelsize : R) (zdep : ndarray)
    (points : list (R * R)) (values : list R) :
  points_loop (p :: rest) iter pendep minlat minlon pixelsize zdep
    points values
  = (points' ← setitem1 points (Z.of_nat iter)
                 (sample_point minlat minlon pixelsize (shape0 zdep) p);
     d ← getitem pendep (Z.of_nat iter);
     values' ← setitem1 values (Z.of_nat iter) (Rabs d);
     points_loop rest (S iter) pendep minlat minlon pixelsize zdep
       points' values').
Proof. reflexivity. Qed.

Lemma points_loop_spec (minlat minlon pixelsize : R) (pendep : list R)
    (zdep : ndarray) (latlons : list (R * R)) :
  ∀ (iter : nat) (points : list (R * R)) (values : list R),
    (iter + length latlons <= length points)%nat →
    (iter + length latlons <= length values)%nat →
    (iter + length latlons <= length pendep)%nat →
    result (points_loop latlons iter pendep minlat minlon pixelsize zdep
              points values)
    = Return
        (take iter points
           ++ map (sample_point minlat minlon pixelsize (shape0 zdep)) latlons
           ++ drop (iter + length latlons) points,
         take iter values
           ++ map Rabs (take (length latlons) (drop iter pendep))
           ++ drop (iter + length latlons) values).
Proof.
  induction latlons as [| p rest IH]; intros iter points values Hp Hv Hd.
  - simpl. rewrite Nat.add_0_r, !take_drop. reflexivity.
  - simpl in Hp, Hv, Hd.
    destruct (lookup_lt_is_Some_2 pendep iter) as [d0 Hd0]; [lia |].
    rewrite points_loop_cons.
    rewrite setitem1_inside, bind_ret_l by lia.
    rewrite (getitem_lookup _ _ _ Hd0), bind_ret_l.
    rewrite setitem1_inside, bind_ret_l by lia.
    rewrite IH by (rewrite ?length_insert; lia).
    set (x := sample_point minlat minlon pixelsize (shape0 zdep) p).
    assert (Htp : take (S iter) (<[iter := x]> points) = take iter points ++ [x]).
    { rewrite (take_S_r _ _ x) by (apply list_lookup_insert_eq; lia).
      rewrite take_insert_ge by lia. reflexivity. }
    assert (Htv : take (S iter) (<[iter := Rabs d0]> values)
                  = take iter values ++ [Rabs d0]).
    { rewrite (take_S_r _ _ (Rabs d0)) by (apply list_lookup_insert_eq; lia).
      rewrite take_insert_ge by lia. reflexivity. }
    rewrite Htp, Htv.
    rewrite !drop_insert_lt by lia.
    rewrite (drop_S pendep d0 iter Hd0).
    replace (S iter + length rest)%nat with (iter + length (p :: rest))%nat
      by (simpl; lia).
    simpl. rewrite <- !app_assoc. reflexivity.
Qed.

(** ** The raster and the sample points of a batch *)

Lemma index_inside (x xmin xmax : R) :
  xmin <= x <= xmax →
  (1 <= py_round ((x - xmin) / 0.002) + 1
     <= Np.ceil ((xmax - xmin) / 0.002) + 1)%Z.
Proof.
  intros Hx. unfold Np.ceil.
  assert (H0 : 0 <= (x - xmin) / 0.002).
  { apply Rmult_le_pos; [lra |]. apply Rlt_le, Rinv_0_lt_compat. lra. }
  assert (Hle : (x - xmin) / 0.002 <= (xmax - xmin) / 0.002).
  { apply Rmult_le_compat_r; [apply Rlt_le, Rinv_0_lt_compat |]; lra. }
  pose proof (py_round_nonneg _ H0).
  pose proof (py_round_le_ceil _ H0).
  pose proof (Zceil_le _ _ Hle). lia.
Qed.

Lemma raster_cell_inside (minlat maxlat minlon maxlon : R) (p : R * R)
    (height width : nat) :
  minlat <= p.1 <= maxlat → minlon <= p.2 <= maxlon →
  Z.of_nat height = (Np.ceil ((maxlat - minlat) / 0.002) + 4)%Z →
  Z.of_nat width = (Np.ceil ((maxlon - minlon) / 0.002) + 4)%Z →
  (2 <= (raster_cell minlat minlon 0.002 height p).1 < Z.of_nat height - 1)%Z
  ∧ (1 <= (raster_cell minlat minlon 0.002 height p).2 < Z.of_nat width - 2)%Z.
Proof.
  intros Hlat Hlon Hh Hw.
  pose proof (index_inside _ _ _ Hlat).
  pose proof (index_inside _ _ _ Hlon).
  unfold raster_cell, get_index. simpl. lia.
Qed.

Lemma grid_samples_spec (latlons : list (R * R)) (pendep : list R) :
  latlons ≠ [] → length pendep = length latlons →
  ∃ (minlon maxlon minlat maxlat : R) (zdep : ndarray),
    result (get_bounding_box latlons)
      = Return ((minlon, maxlon), (minlat, maxlat))
    ∧ result (grid_samples latlons pendep)
      = Return (zdep,
                map (sample_point minlat minlon 0.002 (shape0 zdep)) latlons,
                map Rabs pendep)
    ∧ wf_array zdep
    ∧ Z.of_nat (shape0 zdep) = (Np.ceil ((maxlat - minlat) / 0.002) + 4)%Z
    ∧ Z.of_nat (shape1 zdep) = (Np.ceil ((maxlon - minlon) / 0.002) + 4)%Z
    ∧ (∀ p, p ∈ latlons →
         (2 <= (raster_cell minlat minlon 0.002 (shape0 zdep) p).1
            < Z.of_nat (shape0 zdep) - 1)%Z
         ∧ (1 <= (raster_cell minlat minlon 0.002 (shape0 zdep) p).2
              < Z.of_nat (shape1 zdep) - 2)%Z)
    ∧ (∀ k p d,
         latlons !! k = Some p → pendep !! k = Some d →
         (∀ k' p', (k < k')%nat → latlons !! k' = Some p' →
            raster_cell minlat minlon 0.002 (shape0 zdep) p'
            ≠ raster_cell minlat minlon 0.002 (shape0 zdep) p) →
         at2 zdep
           (Z.to_nat (raster_cell minlat minlon 0.002 (shape0 zdep) p).1)
           (Z.to_nat (raster_cell minlat minlon 0.002 (shape0 zdep) p).2)
         = Some (val (Rabs d)))
    ∧ (∀ r c,
         (r < shape0 zdep)%nat → (c < shape1 zdep)%nat →
         (∀ p, p ∈ latlons →
            raster_cell minlat minlon 0.002 (shape0 zdep) p
            ≠ (Z.of_nat r, Z.of_nat c)) →
         at2 zdep r c = Some nan).
Proof.
  intros Hne Hlen. destruct latlons as [| p0 rest]; [contradiction |].
  destruct (get_bounding_box_bounds p0 rest)
    as (minlon & maxlon & minlat & maxlat & Hbox & Hlon & Hlat & _ & _ & _ & _ & Hin).
  set (latlons := p0 :: rest) in *.
  set (ny := Np.ceil ((maxlat - minlat) / 0.002)).
  set (nx := Np.ceil ((maxlon - minlon) / 0.002)).
  assert (Hny : (0 <= ny)%Z).
  { pose proof (index_inside minlat minlat maxlat ltac:(lra)).
    pose proof (py_round_nonneg ((minlat - minlat) / 0.002)
                  ltac:(unfold Rdiv; rewrite Rminus_diag, Rmult_0_l; lra)).
    fold ny in H. lia. }
  assert (Hnx : (0 <= nx)%Z).
  { pose proof (index_inside minlon minlon maxlon ltac:(lra)).
    pose proof (py_round_nonneg ((minlon - minlon) / 0.002)
                  ltac:(unfold Rdiv; rewrite Rminus_diag, Rmult_0_l; lra)).
    fold nx in H. lia. }
  set (z0 := mk_ndarray (Z.to_nat (ny + 4)) (Z.to_nat (nx + 4))
               (replicate (Z.to_nat (ny + 4))
                  (replicate (Z.to_nat (nx + 4)) nan))).
  assert (Hcells : ∀ p, p ∈ latlons →
            (2 <= (raster_cell minlat minlon 0.002 (shape0 z0) p).1
               < Z.of_nat (shape0 z0) - 1)%Z
            ∧ (1 <= (raster_cell minlat minlon 0.002 (shape0 z0) p).2
                 < Z.of_nat (shape1 z0) - 2)%Z).
  { intros p Hp. destruct (Hin p Hp) as [H1 H2].
    apply (raster_cell_inside minlat maxlat minlon maxlon); try assumption.
    - simpl. fold ny. lia.
    - simpl. fold nx. lia. }
  destruct (raster_loop_spec minlat minlon 0.002 pendep latlons 0 z0)
    as (zdep & Hz & Hwf & Hs0 & Hs1 & Hlast & Hkeep).
  { apply wf_array_full. }
  { intros p Hp. destruct (Hcells p Hp). lia. }
  { rewrite Hlen. simpl. lia. }
  exists minlon, maxlon, minlat, maxlat, zdep.
  rewrite Hs0.
  split; [rewrite Hbox; reflexivity |].
  split; [| split; [exact Hwf | split; [| split; [| split; [| split]]]]].
  - unfold grid_samples. rewrite Hbox, bind_ret_l. cbv beta zeta.
    rewrite result_log, result_log. cbn [fst snd].
    fold ny nx. rewrite full_returns by lia. rewrite bind_ret_l.
    rewrite result_log. fold z0.
    rewrite (bind_returns _ _ zdep) by exact Hz.
    erewrite bind_returns.
    2:{ apply points_loop_spec; rewrite ?length_replicate, ?Hlen; lia. }
    rewrite !take_0. cbn [app]. rewrite Hs0.
    rewrite (drop_ge (replicate (length latlons) (0, 0)))
      by (rewrite length_replicate; lia).
    rewrite (drop_ge (replicate (length latlons) 0))
      by (rewrite length_replicate; lia).
    rewrite !app_nil_r.
    rewrite drop_0, take_ge by lia. reflexivity.
  - simpl. fold ny. lia.
  - rewrite Hs1. simpl. fold nx. lia.
  - rewrite Hs1. exact Hcells.
  - intros k p d Hk Hd Hlater. apply (Hlast k p d Hk Hd Hlater).
  - intros r c Hr Hc Hnone. rewrite Hkeep by exact Hnone.
    rewrite Hs1 in Hc. apply at2_full; [exact Hr | exact Hc].
Qed.

(** ** The depth of a station *)

Lemma nth_of_lookup {A} (l : list A) (i : nat) (d a : A) :
  l !! i = Some a → nth i l d = a.
Proof. intros H. rewrite nth_lookup, H. reflexivity. Qed.

(** C1. For a batch of stations that all have a frequency at index [i] and
    a selector among zxy, zyx and det, [get_penetration_depth] returns, for
    each station, period = 1/frequency[i] and a depth whose magnitude is
    k·sqrt(resistivity[i][0][1]·period) for zxy,
    k·sqrt(resistivity[i][1][0]·period) for zyx and
    k·sqrt(0.2·period·|det[i]|·period) for det, with
    k = sqrt(1/(2π·4π·10^-7)); the value itself is the negated magnitude,
    and the values handed on to the raster and the interpolator are the
    absolute values of the depths. *)
Theorem get_penetration_depth_formula
    (whichrho : string) (i : nat) (files : list MT_obj) :
  valid_selector whichrho → files ≠ [] → Forall (station_ready i) files →
  scale_param = sqrt (1 / (2 * PI * 4 * PI * / 10 ^ 7))
  ∧ ∃ periods pendep : list R,
      result (get_penetration_depth files (Z.of_nat i) whichrho)
        = Return (map station files, periods, pendep,
                  map (λ s, (lat s, lon s)) files)
      ∧ (∀ k s, files !! k = Some s →
           ∃ (f : R) (rho : mat2) (d : complex) (period depth : R),
             freq (mt_Z s) !! i = Some f
             ∧ resistivity (mt_Z s) !! i = Some rho
             ∧ (det (mt_Z s)).1 !! i = Some d
             ∧ periods !! k = Some period ∧ period = 1 / f
             ∧ pendep !! k = Some depth
             ∧ (whichrho = "zxy"%string →
                  Rabs depth = scale_param * sqrt (m01 rho * period))
             ∧ (whichrho = "zyx"%string →
                  Rabs depth = scale_param * sqrt (m10 rho * period))
             ∧ (whichrho = "det"%string →
                  Rabs depth
                  = scale_param * sqrt (0.2 * period * abs_complex d * period))
             ∧ depth = - Rabs depth)
      ∧ ∃ (zdep : ndarray) (points : list (R * R)),
          result (grid_samples (map (λ s, (lat s, lon s)) files) pendep)
            = Return (zdep, points, map Rabs pendep).
Proof.
  intros Hsel Hne Hall. split; [reflexivity |].
  exists (map (spec_period i) files),
         (map (λ s, - spec_depth whichrho i s) files).
  split; [apply get_penetration_depth_returns; assumption |]. split.
  - intros k s Hk.
    assert (Hs : station_ready i s).
    { rewrite Forall_forall in Hall. apply Hall.
      eapply list_elem_of_lookup_2. exact Hk. }
    destruct Hs as (Hi & Hrho & Hdet).
    destruct (lookup_lt_is_Some_2 (freq (mt_Z s)) i Hi) as [f Hf].
    destruct (lookup_lt_is_Some_2 (resistivity (mt_Z s)) i) as [rho Hr];
      [lia |].
    destruct (lookup_lt_is_Some_2 (det (mt_Z s)).1 i) as [d Hd]; [lia |].
    exists f, rho, d, (spec_period i s), (- spec_depth whichrho i s).
    assert (Hper : spec_period i s = 1 / f).
    { unfold spec_period. rewrite (nth_of_lookup _ _ _ f Hf). reflexivity. }
    assert (Habs : Rabs (- spec_depth whichrho i s) = spec_depth whichrho i s).
    { rewrite Rabs_Ropp. apply Rabs_pos_eq, spec_depth_nonneg. }
    rewrite Habs.
    split; [exact Hf |]. split; [exact Hr |]. split; [exact Hd |].
    split; [rewrite list_lookup_fmap, Hk; reflexivity |].
    split; [exact Hper |].
    split; [rewrite list_lookup_fmap, Hk; reflexivity |].
    unfold spec_depth.
    rewrite (nth_of_lookup _ _ _ rho Hr), (nth_of_lookup _ _ _ d Hd).
    repeat split; intros ->; reflexivity.
  - destruct (grid_samples_spec (map (λ s, (lat s, lon s)) files)
                (map (λ s, - spec_depth whichrho i s) files))
      as (minlon & maxlon & minlat & maxlat & zdep & _ & Hgrid & _).
    { destruct files; [contradiction | discriminate]. }
    { rewrite !length_map. reflexivity. }
    eexists _, _. exact Hgrid.
Qed.

Lemma get_penetration_depth_formula_witness :
  scale_param = sqrt (1 / (2 * PI * 4 * PI * / 10 ^ 7))
  ∧ ∃ periods pendep : list R,
      result (get_penetration_depth [station_a; station_b] (Z.of_nat 0) "det")
        = Return (map station [station_a; station_b], periods, pendep,
                  map (λ s, (lat s, lon s)) [station_a; station_b])
      ∧ (∀ k s, [station_a; station_b] !! k = Some s →
           ∃ (f : R) (rho : mat2) (d : complex) (period depth : R),
             freq (mt_Z s) !! 0%nat = Some f
             ∧ resistivity (mt_Z s) !! 0%nat = Some rho
             ∧ (det (mt_Z s)).1 !! 0%nat = Some d
             ∧ periods !! k = Some period ∧ period = 1 / f
             ∧ pendep !! k = Some depth
             ∧ ("det"%string = "zxy"%string →
                  Rabs depth = scale_param * sqrt (m01 rho * period))
             ∧ ("det"%string = "zyx"%string →
                  Rabs depth = scale_param * sqrt (m10 rho * period))
             ∧ ("det"%string = "det"%string →
                  Rabs depth
                  = scale_param * sqrt (0.2 * period * abs_complex d * period))
             ∧ depth = - Rabs depth)
      ∧ ∃ (zdep : ndarray) (points : list (R * R)),
          result (grid_samples
                    (map (λ s, (lat s, lon s)) [station_a; station_b]) pendep)
            = Return (zdep, points, map Rabs pendep).
Proof.
  apply (get_penetration_depth_formula "det" 0 [station_a; station_b]).
  - right. right. reflexivity.
  - discriminate.
  - repeat constructor; simpl; lia.
Defined.

(** ** What a returning batch looks like *)

Lemma penetration_depth_loop_inv (whichrho : string) (i : Z)
    (files : list MT_obj) :
  ∀ (stations : list string) (periods pendep : list R)
    (latlons : list (R * R)) stations' periods' pendep' latlons',
    result (penetration_depth_loop files i whichrho
              stations periods pendep latlons)
      = Return (stations', periods', pendep', latlons') →
    latlons' = latlons ++ map (λ s, (lat s, lon s)) files
    ∧ length periods' = (length periods + length files)%nat
    ∧ length pendep' = (length pendep + length files)%nat.
Proof.
  induction files as [| s rest IH];
    intros stations periods pendep latlons st' pe' pd' ll' H.
  - simpl in H. injection H as <- <- <- <-.
    rewrite app_nil_r. simpl. split; [reflexivity | lia].
  - simpl in H.
    destruct (i >=? Z.of_nat (length (freq (mt_Z s))))%Z; [discriminate H |].
    apply bind_inv in H as (f & _ & H).
    apply bind_inv in H as (d & _ & H).
    apply IH in H as (-> & Hpe & Hpd).
    rewrite !length_app in Hpe, Hpd. simpl in *.
    rewrite <- app_assoc. split; [reflexivity | lia].
Qed.

Lemma get_penetration_depth_inv (whichrho : string) (i : Z)
    (files : list MT_obj) stations periods pendep latlons :
  result (get_penetration_depth files i whichrho)
    = Return (stations, periods, pendep, latlons) →
  files ≠ []
  ∧ latlons = map (λ s, (lat s, lon s)) files
  ∧ length periods = length files
  ∧ length pendep = length files.
Proof.
  unfold get_penetration_depth. intros H.
  apply bind_inv in H as ([[[st pe] pd] ll] & Hloop & H).
  apply bind_inv in H as (b & Hcheck & H).
  injection H as -> -> -> ->.
  apply penetration_depth_loop_inv in Hloop as (Hll & Hpe & Hpd).
  simpl in *. repeat split; try assumption.
  intros ->. simpl in Hpe. destruct periods; [| discriminate Hpe].
  discriminate Hcheck.
Qed.

(** ** The two plotting functions *)

Section Plotting.

Variable glob_edi : string → list MT_obj.
Variables (edi_dir : string) (period_index : Z) (zcomponent : string).
Variables (stations : list string) (periods pendep : list R).
Variable latlons : list (R * R).

Hypothesis batch :
  result (get_penetration_depth (glob_edi edi_dir) period_index zcomponent)
  = Return (stations, periods, pendep, latlons).

Lemma batch_periods_getitem : ∃ p0, getitem periods 0 = mret p0.
Proof using batch.
  destruct (get_penetration_depth_inv _ _ _ _ _ _ _ batch)
    as (Hne & _ & Hpe & _).
  destruct periods as [| p0 rest].
  - destruct (glob_edi edi_dir); [contradiction | discriminate Hpe].
  - exists p0. reflexivity.
Qed.

Lemma plot_latlon_depth_profile_result (b : bool) :
  result (check_period_values periods) = Return b →
  result (plot_latlon_depth_profile glob_edi edi_dir period_index zcomponent)
  = if b then result (grid_samples latlons pendep)
    else Raise (Exception "Period values Not Equal across MT stations EDI files. Please check").
Proof using batch.
  intros Hb. unfold plot_latlon_depth_profile.
  rewrite result_log, (bind_returns _ _ _ batch). cbv beta iota.
  rewrite (bind_returns _ _ b Hb).
  destruct b; simpl negb; cbv iota.
  - destruct batch_periods_getitem as [p0 ->]. rewrite bind_ret_l.
    reflexivity.
  - reflexivity.
Qed.

Lemma plot_gridded_profile_result :
  result (plot_gridded_profile glob_edi edi_dir period_index zcomponent)
  = result (grid_samples latlons pendep).
Proof using batch.
  unfold plot_gridded_profile.
  rewrite result_log, (bind_returns _ _ _ batch). cbv beta iota.
  rewrite result_bind.
  destruct (result (grid_samples latlons pendep)) as [r | e];
    [| reflexivity].
  destruct batch_periods_getitem as [p0 ->]. rewrite bind_ret_l.
  reflexivity.
Qed.

Lemma batch_grid_ready : latlons ≠ [] ∧ length pendep = length latlons.
Proof using batch.
  destruct (get_penetration_depth_inv _ _ _ _ _ _ _ batch)
    as (Hne & -> & _ & Hpd).
  rewrite length_map. split; [| exact Hpd].
  destruct (glob_edi edi_dir); [contradiction | discriminate].
Qed.

End Plotting.

(** ** The raster *)

(** C4. When the periods of the batch agree, [plot_latlon_depth_profile]
    builds a raster of (ny + 4) rows and (nx + 4) columns in which every
    cell that no station maps to holds NaN, and the cell at
    row = height - iy - 1, column = ix of a station holds abs(depth) of
    the last station, in iteration order, that maps to that cell. *)
Theorem raster_last_write_wins
    (glob_edi : string → list MT_obj) (edi_dir : string) (period_index : Z)
    (zcomponent : string) (stations : list string) (periods pendep : list R)
    (latlons : list (R * R)) :
  result (get_penetration_depth (glob_edi edi_dir) period_index zcomponent)
    = Return (stations, periods, pendep, latlons) →
  result (check_period_values periods) = Return true →
  ∃ (minlon maxlon minlat maxlat : R) (zdep : ndarray)
    (points : list (R * R)) (values : list R),
    result (get_bounding_box latlons)
      = Return ((minlon, maxlon), (minlat, maxlat))
    ∧ result (plot_latlon_depth_profile glob_edi edi_dir period_index
                zcomponent)
      = Return (zdep, points, values)
    ∧ wf_array zdep
    ∧ Z.of_nat (shape0 zdep) = (Np.ceil ((maxlat - minlat) / 0.002) + 4)%Z
    ∧ Z.of_nat (shape1 zdep) = (Np.ceil ((maxlon - minlon) / 0.002) + 4)%Z
    ∧ (∀ k p d,
         latlons !! k = Some p → pendep !! k = Some d →
         let rc := raster_cell minlat minlon 0.002 (shape0 zdep) p in
         rc = ((Z.of_nat (shape0 zdep)
                - (py_round ((p.1 - minlat) / 0.002) + 1) - 1)%Z,
               (py_round ((p.2 - minlon) / 0.002) + 1)%Z)
         ∧ (0 <= rc.1 < Z.of_nat (shape0 zdep))%Z
         ∧ (0 <= rc.2 < Z.of_nat (shape1 zdep))%Z
         ∧ ((∀ k' p', (k < k')%nat → latlons !! k' = Some p' →
               raster_cell minlat minlon 0.002 (shape0 zdep) p' ≠ rc) →
            at2 zdep (Z.to_nat rc.1) (Z.to_nat rc.2) = Some (val (Rabs d))))
    ∧ (∀ r c,
         (r < shape0 zdep)%nat → (c < shape1 zdep)%nat →
         (∀ p, p ∈ latlons →
            raster_cell minlat minlon 0.002 (shape0 zdep) p
            ≠ (Z.of_nat r, Z.of_nat c)) →
         at2 zdep r c = Some nan).
Proof.
  intros Hbatch Hcheck.
  destruct (batch_grid_ready _ _ _ _ _ _ _ _ Hbatch) as [Hne Hlen].
  destruct (grid_samples_spec latlons pendep Hne Hlen)
    as (minlon & maxlon & minlat & maxlat & zdep & Hbox & Hgrid & Hwf
        & Hs0 & Hs1 & Hcells & Hlast & Hnan).
  exists minlon, maxlon, minlat, maxlat, zdep. eexists _, _.
  split; [exact Hbox |]. split.
  { rewrite (plot_latlon_depth_profile_result _ _ _ _ _ _ _ _ Hbatch true Hcheck).
    exact Hgrid. }
  split; [exact Hwf |]. split; [exact Hs0 |]. split; [exact Hs1 |].
  split; [| exact Hnan].
  intros k p d Hk Hd rc.
  destruct (Hcells p (list_elem_of_lookup_2 _ _ _ Hk)) as [Hr Hc].
  split; [reflexivity |]. fold rc in Hr, Hc.
  split; [lia |]. split; [lia |].
  intros Hlater. apply (Hlast k p d Hk Hd Hlater).
Qed.

(** *** Two stations at one place *)

Lemma round_of_zero (x : R) : x = 0 → py_round x = 0%Z.
Proof. intros ->. apply (py_round_IZR 0). Qed.

Lemma ceil_of_zero (x : R) : x = 0 → Np.ceil x = 0%Z.
Proof. intros ->. apply Zceil_eq. lra. Qed.

Lemma same_cell_batch_returns :
  result (get_penetration_depth (same_cell_batch "d") 0 "det")
  = Return (["a"; "a2"]%string,
            [1 / 0.125; 1 / 0.125],
            [- spec_depth "det" 0 station_a; - spec_depth "det" 0 station_a2],
            [(0, 0); (0, 0)]).
Proof.
  apply (get_penetration_depth_returns "det" 0 (same_cell_batch "d")).
  - right. right. reflexivity.
  - discriminate.
  - repeat constructor; simpl; lia.
Qed.

Lemma same_cell_batch_periods :
  result (check_period_values [1 / 0.125; 1 / 0.125]) = Return true.
Proof.
  unfold check_period_values. simpl.
  destruct (Req_dec_T (1 / 0.125) (1 / 0.125)); [reflexivity | contradiction].
Qed.

Lemma raster_last_write_wins_witness :
  ∃ (zdep : ndarray) (points : list (R * R)) (values : list R),
    result (plot_latlon_depth_profile same_cell_batch "d" 0 "det")
      = Return (zdep, points, values)
    ∧ shape0 zdep = 4%nat ∧ shape1 zdep = 4%nat
    ∧ at2 zdep 2 1 = Some (val (Rabs (- spec_depth "det" 0 station_a2)))
    ∧ at2 zdep 0 0 = Some nan.
Proof.
  destruct (raster_last_write_wins same_cell_batch "d" 0 "det" _ _ _ _
              same_cell_batch_returns same_cell_batch_periods)
    as (minlon & maxlon & minlat & maxlat & zdep & points & values
        & Hbox & Hplot & _ & Hs0 & Hs1 & Hcell & Hnan).
  assert (Hb : result (get_bounding_box [(0, 0); (0, 0)])
               = Return ((0, 0), (0, 0))).
  { rewrite get_bounding_box_cons. simpl. decide_R. reflexivity. }
  rewrite Hb in Hbox. injection Hbox as <- <- <- <-.
  rewrite (ceil_of_zero ((0 - 0) / 0.002)) in Hs0, Hs1 by lra.
  assert (H0 : shape0 zdep = 4%nat) by lia.
  assert (H1 : shape1 zdep = 4%nat) by lia.
  assert (Hrc : ∀ p, p ∈ [(0, 0); (0, 0)] →
            raster_cell 0 0 0.002 (shape0 zdep) p = (2%Z, 1%Z)).
  { intros p Hp.
    assert (p = (0, 0)) as ->.
    { repeat (apply elem_of_cons in Hp as [Hp | Hp]; [exact Hp |]).
      inversion Hp. }
    unfold raster_cell, get_index. simpl.
    rewrite (round_of_zero ((0 - 0) / 0.002)) by lra. rewrite H0.
    reflexivity. }
  exists zdep, points, values.
  split; [exact Hplot |]. split; [exact H0 |]. split; [exact H1 |]. split.
  - destruct (Hcell 1%nat (0, 0) (- spec_depth "det" 0 station_a2)
                eq_refl eq_refl) as (_ & _ & _ & Hlast).
    rewrite Hrc in Hlast by (right; left). apply Hlast.
    intros k' p' Hlt Hk'. destruct k' as [| [| k']]; try lia.
    discriminate Hk'.
  - apply Hnan; [lia | lia |].
    intros p Hp. rewrite (Hrc p Hp). discriminate.
Defined.

(** ** The points handed to the interpolator *)

Lemma sample_point_row_below (minlat minlon pixelsize : R) (height : nat)
    (p : R * R) :
  sample_point minlat minlon pixelsize height p
  = (IZR ((raster_cell minlat minlon pixelsize height p).1 + 1),
     IZR (raster_cell minlat minlon pixelsize height p).2).
Proof.
  unfold sample_point, raster_cell, get_index. simpl.
  f_equal. f_equal. lia.
Qed.

(** C2 fails on the code.  The raster loop writes the cell at
    row = height - iy - 1, but the loop that fills [points] stores
    row = height - j for the same station: every point handed to
    [griddata] lies one row below the cell that was populated for it, and
    so never coincides with it. *)
Theorem sample_points_one_row_below
    (glob_edi : string → list MT_obj) (edi_dir : string) (period_index : Z)
    (zcomponent : string) (stations : list string) (periods pendep : list R)
    (latlons : list (R * R)) :
  result (get_penetration_depth (glob_edi edi_dir) period_index zcomponent)
    = Return (stations, periods, pendep, latlons) →
  result (check_period_values periods) = Return true →
  ∃ (minlon maxlon minlat maxlat : R) (zdep : ndarray)
    (points : list (R * R)) (values : list R),
    result (get_bounding_box latlons)
      = Return ((minlon, maxlon), (minlat, maxlat))
    ∧ result (plot_latlon_depth_profile glob_edi edi_dir period_index
                zcomponent)
      = Return (zdep, points, values)
    ∧ Z.of_nat (shape0 zdep) = (Np.ceil ((maxlat - minlat) / 0.002) + 4)%Z
    ∧ length points = length latlons
    ∧ ∀ k p,
        latlons !! k = Some p →
        let rc := raster_cell minlat minlon 0.002 (shape0 zdep) p in
        points !! k = Some (IZR (rc.1 + 1), IZR rc.2)
        ∧ points !! k ≠ Some (IZR rc.1, IZR rc.2).
Proof.
  intros Hbatch Hcheck.
  destruct (batch_grid_ready _ _ _ _ _ _ _ _ Hbatch) as [Hne Hlen].
  destruct (grid_samples_spec latlons pendep Hne Hlen)
    as (minlon & maxlon & minlat & maxlat & zdep & Hbox & Hgrid & _ & Hs0 & _).
  exists minlon, maxlon, minlat, maxlat, zdep. eexists _, _.
  split; [exact Hbox |]. split.
  { rewrite (plot_latlon_depth_profile_result _ _ _ _ _ _ _ _ Hbatch true Hcheck).
    exact Hgrid. }
  split; [exact Hs0 |].
  split; [apply length_map |].
  intros k p Hk rc.
  assert (Hpt : map (sample_point minlat minlon 0.002 (shape0 zdep)) latlons
                  !! k = Some (IZR (rc.1 + 1), IZR rc.2)).
  { rewrite list_lookup_fmap, Hk. simpl.
    rewrite sample_point_row_below. reflexivity. }
  split; [exact Hpt |]. rewrite Hpt.
  intros [= H]. apply eq_IZR in H. lia.
Qed.

Lemma single_batch_returns :
  result (get_penetration_depth (single_batch "d") 0 "det")
  = Return (["a"]%string, [1 / 0.125],
            [- spec_depth "det" 0 station_a], [(0, 0)]).
Proof.
  apply (get_penetration_depth_returns "det" 0 (single_batch "d")).
  - right. right. reflexivity.
  - discriminate.
  - repeat constructor; simpl; lia.
Qed.

Lemma single_batch_periods :
  result (check_period_values [1 / 0.125]) = Return true.
Proof.
  unfold check_period_values. simpl.
  destruct (Req_dec_T (1 / 0.125) (1 / 0.125)); [reflexivity | contradiction].
Qed.

(** One station at latitude 0, longitude 0: the raster has 4 rows, the
    cell (2, 1) is populated, and the point handed over is (3, 1). *)
Lemma sample_points_one_row_below_witness :
  ∃ (zdep : ndarray) (values : list R),
    result (plot_latlon_depth_profile single_batch "d" 0 "det")
      = Return (zdep, [(3, 1)], values)
    ∧ shape0 zdep = 4%nat
    ∧ raster_cell 0 0 0.002 (shape0 zdep) (0, 0) = (2%Z, 1%Z).
Proof.
  destruct (sample_points_one_row_below single_batch "d" 0 "det" _ _ _ _
              single_batch_returns single_batch_periods)
    as (minlon & maxlon & minlat & maxlat & zdep & points & values
        & Hbox & Hplot & H0 & Hlen & Hpts).
  change (result (get_bounding_box [(0, 0)]))
    with (Return (A := (R * R) * (R * R)) ((0, 0), (0, 0))) in Hbox.
  injection Hbox as <- <- <- <-.
  assert (Hs0 : shape0 zdep = 4%nat).
  { rewrite (ceil_of_zero ((0 - 0) / 0.002)) in H0 by lra. lia. }
  assert (Hrc : raster_cell 0 0 0.002 (shape0 zdep) (0, 0) = (2%Z, 1%Z)).
  { unfold raster_cell, get_index. simpl.
    rewrite (round_of_zero ((0 - 0) / 0.002)) by lra. rewrite Hs0.
    reflexivity. }
  destruct (Hpts 0%nat (0, 0) eq_refl) as [Hp0 _].
  rewrite Hrc in Hp0. simpl in Hp0.
  destruct points as [| q [| q' rest]]; try discriminate Hlen.
  injection Hp0 as ->.
  exists zdep, values. split; [exact Hplot |].
  split; [exact Hs0 | exact Hrc].
Defined.

(** ** The CSV export *)

Lemma broadcast_same_length (f : R → R → R) (a b : list R) :
  length a = length b → broadcast f a b = mret (zip_with f a b).
Proof.
  intros H. unfold broadcast. rewrite decide_True by exact H. reflexivity.
Qed.

Lemma all_eq_true (a b : list R) :
  length a = length b → (all_eq a b = true ↔ a = b).
Proof.
  revert b. induction a as [| x a IH]; intros [| y b] Hlen;
    try discriminate Hlen.
  - split; reflexivity.
  - unfold all_eq. simpl. injection Hlen as Hlen.
    destruct (Req_dec_T x y) as [-> | Hne]; simpl.
    + fold (all_eq a b). rewrite (IH b Hlen). split; congruence.
    + split; [discriminate | congruence].
Qed.

Lemma periods_test (per per0 : list R) :
  bool_decide (length per = length per0) && all_eq per per0
  = bool_decide (per = per0).
Proof.
  destruct (decide (length per = length per0)) as [Hlen | Hlen].
  - rewrite (bool_decide_eq_true_2 _ Hlen). simpl.
    destruct (decide (per = per0)) as [Heq | Hne].
    + rewrite (bool_decide_eq_true_2 _ Heq).
      apply all_eq_true; assumption.
    + rewrite (bool_decide_eq_false_2 _ Hne).
      destruct (all_eq per per0) eqn:E; [| reflexivity].
      apply all_eq_true in E; [contradiction | exact Hlen].
  - rewrite (bool_decide_eq_false_2 _ Hlen). simpl. symmetry.
    apply bool_decide_eq_false_2. congruence.
Qed.

Lemma edi_file_det_depths (s : MT_obj) :
  csv_ready s →
  get_penetration_depths_from_edi_file s ["det"%string]
  = ([(DEBUG, "processing the edi file %s"%string);
      (DEBUG, "the scale parameter= %s"%string)],
     Return (lat s, lon s, station_periods s, det_depths s)).
Proof.
  intros Hready. unfold csv_ready in Hready.
  unfold get_penetration_depths_from_edi_file. simpl py_in. cbv iota.
  fold (station_periods s).
  rewrite broadcast_same_length
    by (unfold station_periods; rewrite !length_map; congruence).
  rewrite (bind_ret_l (A := list R)).
  rewrite broadcast_same_length.
  2:{ rewrite length_zip_with. unfold station_periods.
      rewrite !length_map. lia. }
  reflexivity.
Qed.

Lemma count_level_cons (l l' : level) (fmt : string) (records : list logrec) :
  count_level l ((l', fmt) :: records)
  = ((if decide (l' = l) then 1 else 0) + count_level l records)%nat.
Proof.
  unfold count_level. rewrite filter_cons. simpl.
  destruct (decide (l' = l)); reflexivity.
Qed.

Section Csv.

Variable fmt_2f : R → string.

Lemma csv_loop_cons_some (s : MT_obj) (rest : list MT_obj) (per0 : list R)
    (latlon_dep : list (R * R * string)) :
  csv_ready s →
  csv_loop fmt_2f (s :: rest) (Some per0) latlon_dep
  = (log DEBUG "processing %s";;
     log DEBUG "processing the edi file %s";;
     log DEBUG "the scale parameter= %s";;
     if decide (station_periods s = per0)
     then csv_loop fmt_2f rest (Some per0) (latlon_dep ++ [csv_row fmt_2f s])
     else log ERROR "MT Periods Not Equal !! %s VS %s";;
          csv_loop fmt_2f rest (Some per0) latlon_dep).
Proof.
  intros Hready. cbn [csv_loop].
  rewrite (edi_file_det_depths s Hready).
  cbv beta iota delta [mbind M_bind log fst snd].
  rewrite periods_test. fold (csv_row fmt_2f s).
  destruct (decide (station_periods s = per0)) as [Heq | Hne].
  - rewrite (bool_decide_eq_true_2 _ Heq).
    unfold mbind, M_bind, log. simpl.
    destruct (csv_loop fmt_2f rest (Some per0) (latlon_dep ++ [csv_row fmt_2f s]))
      as [l [a | e]]; reflexivity.
  - rewrite (bool_decide_eq_false_2 _ Hne).
    unfold mbind, M_bind, log. simpl.
    destruct (csv_loop fmt_2f rest (Some per0) latlon_dep)
      as [l [a | e]]; reflexivity.
Qed.

Lemma csv_loop_cons_none (s : MT_obj) (rest : list MT_obj)
    (latlon_dep : list (R * R * string)) :
  csv_ready s →
  csv_loop fmt_2f (s :: rest) None latlon_dep
  = (log DEBUG "processing %s";;
     log DEBUG "processing the edi file %s";;
     log DEBUG "the scale parameter= %s";;
     csv_loop fmt_2f rest (Some (station_periods s))
       (latlon_dep ++ [csv_row fmt_2f s])).
Proof.
  intros Hready. cbn [csv_loop].
  rewrite (edi_file_det_depths s Hready).
  unfold csv_row, mbind, M_bind, log. simpl.
  destruct (csv_loop fmt_2f rest _ _) as [l [a | e]]; reflexivity.
Qed.

Lemma csv_loop_some (per0 : list R) (files : list MT_obj) :
  Forall csv_ready files →
  ∀ latlon_dep,
    result (csv_loop fmt_2f files (Some per0) latlon_dep)
    = Return (latlon_dep
              ++ map (csv_row fmt_2f)
                   (filter (λ s, station_periods s = per0) files))
    ∧ count_level ERROR (logs (csv_loop fmt_2f files (Some per0) latlon_dep))
      = length (filter (λ s, station_periods s ≠ per0) files).
Proof.
  induction 1 as [| s rest Hs Hrest IH]; intros latlon_dep.
  - simpl. rewrite app_nil_r. split; reflexivity.
  - rewrite (csv_loop_cons_some s rest per0 latlon_dep Hs).
    rewrite !result_log, !logs_log, !count_level_cons, !filter_cons.
    rewrite !(decide_False (P := DEBUG = ERROR)) by discriminate.
    destruct (decide (station_periods s = per0)) as [Heq | Hne].
    + rewrite (decide_False (P := station_periods s ≠ per0))
        by (intros Hne; apply Hne; exact Heq).
      destruct (IH (latlon_dep ++ [csv_row fmt_2f s])) as [Hr Hl].
      rewrite Hr, Hl. simpl. rewrite <- app_assoc. split; reflexivity.
    + rewrite (decide_True (P := station_periods s ≠ per0)) by exact Hne.
      rewrite result_log, logs_log, count_level_cons.
      rewrite (decide_True (P := ERROR = ERROR)) by reflexivity.
      destruct (IH latlon_dep) as [Hr Hl].
      rewrite Hr, Hl. split; reflexivity.
Qed.

End Csv.

Lemma count_level_app (l : level) (a b : list logrec) :
  count_level l (a ++ b) = (count_level l a + count_level l b)%nat.
Proof. unfold count_level. rewrite filter_app, length_app. reflexivity. Qed.

(** The end of [create_csv_file], after the loop has returned [rows]. *)
Lemma create_csv_file_after_loop (glob_edi : string → list MT_obj)
    (fmt_2f : R → string)
    (write_rows : string → list (R * R * string) → option exn)
    (edi_dir : string) (outputcsv : option string) (zcomponent : string)
    (rows : list (R * R * string)) :
  result (csv_loop fmt_2f (glob_edi edi_dir) None []) = Return rows →
  result (create_csv_file glob_edi fmt_2f write_rows edi_dir outputcsv
            zcomponent)
  = after_write (write_rows (csv_target outputcsv) rows) rows
  ∧ count_level ERROR
      (logs (create_csv_file glob_edi fmt_2f write_rows edi_dir outputcsv
               zcomponent))
    = count_level ERROR (logs (csv_loop fmt_2f (glob_edi edi_dir) None [])).
Proof.
  intros Hres. unfold create_csv_file.
  change (match outputcsv with
          | Some path => path
          | None => "E:/tmp/MT_pen_depth.csv"%string
          end) with (csv_target outputcsv).
  split.
  - rewrite result_log, (bind_returns _ _ _ Hres), result_log.
    destruct (write_rows (csv_target outputcsv) rows); reflexivity.
  - rewrite logs_log, count_level_cons, logs_bind, Hres, count_level_app.
    rewrite (decide_False (P := DEBUG = ERROR)) by discriminate.
    rewrite logs_log, count_level_cons.
    rewrite (decide_False (P := INFO = ERROR)) by discriminate.
    destruct (write_rows (csv_target outputcsv) rows); simpl;
      change (count_level ERROR []) with 0%nat; lia.
Qed.

Lemma create_csv_file_rows (glob_edi : string → list MT_obj)
    (fmt_2f : R → string)
    (write_rows : string → list (R * R * string) → option exn)
    (edi_dir : string) (outputcsv : option string)
    (zcomponent : string) (s0 : MT_obj) (rest : list MT_obj) :
  glob_edi edi_dir = s0 :: rest → Forall csv_ready (s0 :: rest) →
  let rows := map (csv_row fmt_2f)
                (filter (λ s, station_periods s = station_periods s0)
                   (s0 :: rest)) in
  result (create_csv_file glob_edi fmt_2f write_rows edi_dir outputcsv
            zcomponent)
  = after_write (write_rows (csv_target outputcsv) rows) rows
  ∧ count_level ERROR
      (logs (create_csv_file glob_edi fmt_2f write_rows edi_dir outputcsv
               zcomponent))
    = length (filter (λ s, station_periods s ≠ station_periods s0)
                (s0 :: rest)).
Proof.
  intros Hglob Hready. apply Forall_cons in Hready as [Hs0 Hrest].
  destruct (csv_loop_some fmt_2f (station_periods s0) rest Hrest
              ([] ++ [csv_row fmt_2f s0])) as [Hr Hl].
  assert (Hres : result (csv_loop fmt_2f (s0 :: rest) None [])
                 = Return (map (csv_row fmt_2f)
                             (filter (λ s, station_periods s = station_periods s0)
                                (s0 :: rest)))).
  { rewrite (csv_loop_cons_none fmt_2f s0 rest [] Hs0), !result_log, Hr.
    rewrite filter_cons, decide_True by reflexivity. reflexivity. }
  assert (Hloop : result (csv_loop fmt_2f (glob_edi edi_dir) None [])
                  = Return (map (csv_row fmt_2f)
                              (filter
                                 (λ s, station_periods s = station_periods s0)
                                 (s0 :: rest)))).
  { rewrite Hglob. exact Hres. }
  destruct (create_csv_file_after_loop glob_edi fmt_2f write_rows edi_dir
              outputcsv zcomponent _ Hloop) as [Hend Hcount].
  split; [exact Hend |].
  rewrite Hcount, Hglob.
  rewrite (csv_loop_cons_none fmt_2f s0 rest [] Hs0), !logs_log,
    !count_level_cons, Hl.
  rewrite !(decide_False (P := DEBUG = ERROR)) by discriminate.
  rewrite (filter_cons (λ s, station_periods s ≠ station_periods s0)).
  rewrite
    (decide_False (P := station_periods s0 ≠ station_periods s0))
    by (intros H; apply H; reflexivity).
  lia.
Qed.

(** ** Two policies for a period mismatch *)

(** C6. For a batch whose periods at the requested index disagree,
    [plot_latlon_depth_profile] raises an exception and returns nothing,
    while [create_csv_file] keeps going: it logs one error for every
    station whose periods differ from those of the first station, and the
    table it hands to the writer holds the rows of the other stations, in
    the order of the batch. It returns that table when the file was
    written, and ends with the writer's exception when it was not. *)
Theorem period_mismatch_two_policies
    (glob_edi : string → list MT_obj) (fmt_2f : R → string)
    (write_rows : string → list (R * R * string) → option exn)
    (edi_dir : string) (outputcsv : option string) (period_index : Z)
    (zcomponent : string) (stations : list string) (periods pendep : list R)
    (latlons : list (R * R)) :
  result (get_penetration_depth (glob_edi edi_dir) period_index zcomponent)
    = Return (stations, periods, pendep, latlons) →
  result (check_period_values periods) = Return false →
  Forall csv_ready (glob_edi edi_dir) →
  result (plot_latlon_depth_profile glob_edi edi_dir period_index zcomponent)
    = Raise (Exception "Period values Not Equal across MT stations EDI files. Please check")
  ∧ ∃ (s0 : MT_obj) (rest : list MT_obj),
      glob_edi edi_dir = s0 :: rest
      ∧ (let rows := map (csv_row fmt_2f)
                       (filter (λ s, station_periods s = station_periods s0)
                          (s0 :: rest)) in
         result (create_csv_file glob_edi fmt_2f write_rows edi_dir outputcsv
                   zcomponent)
         = after_write (write_rows (csv_target outputcsv) rows) rows)
      ∧ count_level ERROR
          (logs (create_csv_file glob_edi fmt_2f write_rows edi_dir outputcsv
                   zcomponent))
        = length (filter (λ s, station_periods s ≠ station_periods s0)
                    (s0 :: rest)).
Proof.
  intros Hbatch Hcheck Hready. split.
  - rewrite (plot_latlon_depth_profile_result _ _ _ _ _ _ _ _ Hbatch false Hcheck).
    reflexivity.
  - destruct (get_penetration_depth_inv _ _ _ _ _ _ _ Hbatch) as (Hne & _).
    destruct (glob_edi edi_dir) as [| s0 rest] eqn:Hglob; [contradiction |].
    exists s0, rest. split; [reflexivity |].
    apply create_csv_file_rows; assumption.
Qed.

Lemma mismatch_batch_returns :
  result (get_penetration_depth (mismatch_batch "d") 0 "det")
  = Return (["a"; "c"; "b"]%string,
            [1 / 0.125; 1 / 0.25; 1 / 0.125],
            [- spec_depth "det" 0 station_a; - spec_depth "det" 0 station_c;
             - spec_depth "det" 0 station_b],
            [(0, 0); (0.02, 0.01); (0.01, 0.02)]).
Proof.
  apply (get_penetration_depth_returns "det" 0 (mismatch_batch "d")).
  - right. right. reflexivity.
  - discriminate.
  - repeat constructor; simpl; lia.
Qed.

Lemma mismatch_batch_periods :
  result (check_period_values [1 / 0.125; 1 / 0.25; 1 / 0.125])
  = Return false.
Proof.
  unfold check_period_values. simpl.
  destruct (Req_dec_T (1 / 0.125) (1 / 0.125)); [| contradiction].
  destruct (Req_dec_T (1 / 0.25) (1 / 0.125)); [exfalso; lra | reflexivity].
Qed.

Lemma mismatch_batch_ready : Forall csv_ready (mismatch_batch "d").
Proof. repeat constructor. Qed.

Lemma mismatch_batch_kept :
  filter (λ s, station_periods s = station_periods station_a)
    (mismatch_batch "d")
  = [station_a; station_b].
Proof.
  assert (Ha : station_periods station_a = [1 / 0.125]) by reflexivity.
  assert (Hb : station_periods station_b = [1 / 0.125]) by reflexivity.
  assert (Hc : station_periods station_c ≠ [1 / 0.125]).
  { intros [= H]. lra. }
  rewrite Ha. unfold mismatch_batch.
  rewrite !filter_cons, filter_nil.
  rewrite (decide_True (P := station_periods station_a = [1 / 0.125]))
    by exact Ha.
  rewrite (decide_True (P := station_periods station_b = [1 / 0.125]))
    by exact Hb.
  rewrite (decide_False (P := station_periods station_c = [1 / 0.125]))
    by exact Hc.
  reflexivity.
Qed.

Lemma mismatch_batch_left_out :
  filter (λ s, station_periods s ≠ station_periods station_a)
    (mismatch_batch "d")
  = [station_c].
Proof.
  assert (Ha : station_periods station_a = [1 / 0.125]) by reflexivity.
  assert (Hb : station_periods station_b = [1 / 0.125]) by reflexivity.
  assert (Hc : station_periods station_c ≠ [1 / 0.125]).
  { intros [= H]. lra. }
  rewrite Ha. unfold mismatch_batch.
  rewrite !filter_cons, filter_nil.
  rewrite (decide_False (P := station_periods station_a ≠ [1 / 0.125]))
    by (intros H; apply H; exact Ha).
  rewrite (decide_False (P := station_periods station_b ≠ [1 / 0.125]))
    by (intros H; apply H; exact Hb).
  rewrite (decide_True (P := station_periods station_c ≠ [1 / 0.125]))
    by exact Hc.
  reflexivity.
Qed.

Lemma period_mismatch_two_policies_witness :
  result (plot_latlon_depth_profile mismatch_batch "d" 0 "det")
    = Raise (Exception "Period values Not Equal across MT stations EDI files. Please check")
  ∧ result (create_csv_file mismatch_batch (λ _, "0.00"%string)
              no_default_directory "d" (Some "out.csv"%string) "det")
    = Return [csv_row (λ _, "0.00"%string) station_a;
              csv_row (λ _, "0.00"%string) station_b]
  ∧ result (create_csv_file mismatch_batch (λ _, "0.00"%string)
              no_default_directory "d" None "det")
    = Raise IOError
  ∧ count_level ERROR
      (logs (create_csv_file mismatch_batch (λ _, "0.00"%string)
               no_default_directory "d" None "det"))
    = 1%nat.
Proof.
  destruct (period_mismatch_two_policies mismatch_batch (λ _, "0.00"%string)
              no_default_directory "d" (Some "out.csv"%string) 0 "det" _ _ _ _
              mismatch_batch_returns mismatch_batch_periods
              mismatch_batch_ready)
    as (Hplot & s0 & rest & Hglob & Hrows & _).
  destruct (period_mismatch_two_policies mismatch_batch (λ _, "0.00"%string)
              no_default_directory "d" None 0 "det" _ _ _ _
              mismatch_batch_returns mismatch_batch_periods
              mismatch_batch_ready)
    as (_ & s1 & rest1 & Hglob1 & Hfail & Hcount).
  injection Hglob as <- <-. injection Hglob1 as <- <-.
  cbv zeta in Hrows, Hfail.
  change [station_a; station_c; station_b] with (mismatch_batch "d")
    in Hrows, Hfail, Hcount.
  rewrite mismatch_batch_kept in Hrows, Hfail.
  rewrite mismatch_batch_left_out in Hcount.
  split; [exact Hplot |]. split; [exact Hrows |].
  split; [exact Hfail | exact Hcount].
Defined.

(** ** The period check inside [get_penetration_depth] *)

(** C10. When the periods of a batch disagree, [get_penetration_depth]
    still returns its four lists: what [check_period_values] returns is
    dropped.  [plot_gridded_profile] does not run the check again and
    returns the raster, the points and the values of that batch. *)
Theorem period_check_result_discarded
    (glob_edi : string → list MT_obj) (edi_dir : string) (i : nat)
    (zcomponent : string) :
  valid_selector zcomponent → glob_edi edi_dir ≠ [] →
  Forall (station_ready i) (glob_edi edi_dir) →
  result (check_period_values (map (spec_period i) (glob_edi edi_dir)))
    = Return false →
  ∃ (stations : list string) (periods pendep : list R)
    (latlons : list (R * R)),
    result (get_penetration_depth (glob_edi edi_dir) (Z.of_nat i) zcomponent)
      = Return (stations, periods, pendep, latlons)
    ∧ periods = map (spec_period i) (glob_edi edi_dir)
    ∧ result (check_period_values periods) = Return false
    ∧ ∃ (zdep : ndarray) (points : list (R * R)),
        result (plot_gridded_profile glob_edi edi_dir (Z.of_nat i) zcomponent)
          = Return (zdep, points, map Rabs pendep).
Proof.
  intros Hsel Hne Hall Hcheck.
  pose proof (get_penetration_depth_returns zcomponent i (glob_edi edi_dir)
                Hsel Hne Hall) as Hbatch.
  eexists _, _, _, _. split; [exact Hbatch |].
  split; [reflexivity |]. split; [exact Hcheck |].
  destruct (batch_grid_ready _ _ _ _ _ _ _ _ Hbatch) as [Hll Hlen].
  destruct (grid_samples_spec _ _ Hll Hlen)
    as (minlon & maxlon & minlat & maxlat & zdep & _ & Hgrid & _).
  eexists _, _.
  rewrite (plot_gridded_profile_result _ _ _ _ _ _ _ _ Hbatch).
  exact Hgrid.
Qed.

Lemma period_check_result_discarded_witness :
  ∃ (stations : list string) (periods pendep : list R)
    (latlons : list (R * R)),
    result (get_penetration_depth (mismatch_batch "d") (Z.of_nat 0) "det")
      = Return (stations, periods, pendep, latlons)
    ∧ periods = map (spec_period 0) (mismatch_batch "d")
    ∧ result (check_period_values periods) = Return false
    ∧ ∃ (zdep : ndarray) (points : list (R * R)),
        result (plot_gridded_profile mismatch_batch "d" (Z.of_nat 0) "det")
          = Return (zdep, points, map Rabs pendep).
Proof.
  apply (period_check_result_discarded mismatch_batch "d" 0 "det").
  - right. right. reflexivity.
  - discriminate.
  - repeat constructor; simpl; lia.
  - exact mismatch_batch_periods.
Defined.

(** ** The command line *)

(** C9, as the code has it.  The guard tests [len(sys.argv) < 2], and
    [sys.argv] starts with the name of the program: the wrapper exits with
    status 1 when it is given no positional argument. *)
Theorem main_without_arguments_exits_1
    (glob_edi : string → list MT_obj) (isdir : string → bool)
    (py_int : string → option Z) (argv : list string) :
  (length argv < 2)%nat →
  result (main glob_edi isdir py_int argv) = Raise (SystemExit 1)
  ∧ exit_status (main glob_edi isdir py_int argv) = 1%Z.
Proof.
  intros H. unfold main.
  destruct (Z.ltb_spec (Z.of_nat (length argv)) 2); [| lia].
  split; reflexivity.
Qed.

Lemma main_without_arguments_exits_1_witness :
  result (main (λ _, []) (λ _, false) (λ _, None)
            ["penetration_depth_3d_profile.py"%string])
    = Raise (SystemExit 1)
  ∧ exit_status (main (λ _, []) (λ _, false) (λ _, None)
                   ["penetration_depth_3d_profile.py"%string])
    = 1%Z.
Proof.
  apply (main_without_arguments_exits_1 (λ _, []) (λ _, false) (λ _, None)
           ["penetration_depth_3d_profile.py"%string]).
  simpl. lia.
Defined.

(** The claim C9 fails with one positional argument that is not a
    directory: the wrapper prints a message and ends normally, with
    status 0. *)
Lemma main_one_argument_counterexample :
  (length ["penetration_depth_3d_profile.py"; "not_a_directory"]%string - 1
     < 2)%nat
  ∧ result (main (λ _, []) (λ _, false) (λ _, None)
              ["penetration_depth_3d_profile.py"; "not_a_directory"]%string)
    = Return tt
  ∧ exit_status (main (λ _, []) (λ _, false) (λ _, None)
                   ["penetration_depth_3d_profile.py"; "not_a_directory"]%string)
    = 0%Z
  ∧ ¬ (∀ (glob_edi : string → list MT_obj) (isdir : string → bool)
         (py_int : string → option Z) (argv : list string),
         (length argv - 1 < 2)%nat →
         exit_status (main glob_edi isdir py_int argv) = 1%Z).
Proof.
  split; [simpl; lia |]. split; [reflexivity |]. split; [reflexivity |].
  intros H.
  specialize (H (λ _, []) (λ _, false) (λ _, None)
                ["penetration_depth_3d_profile.py"; "not_a_directory"]%string).
  simpl in H. specialize (H ltac:(lia)). discriminate H.
Qed.

(** * Further properties of the module *)

(** ** Pixel indices *)

Lemma py_round_le (x y : R) : x <= y → (py_round x <= py_round y)%Z.
Proof.
  intros Hxy. unfold py_round.
  destruct (Rle_dec 0 x) as [Hx | Hx], (Rle_dec 0 y) as [Hy | Hy].
  - apply Zfloor_le. lra.
  - lra.
  - transitivity 0%Z.
    + apply le_IZR. pose proof (Zceil_bound (x - / 2)) as Hc.
      destruct (Z_le_gt_dec (Zceil (x - / 2)) 0) as [Hle | Hgt].
      * apply IZR_le. exact Hle.
      * assert (Hz : (1 <= Zceil (x - / 2))%Z) by lia.
        apply IZR_le in Hz. lra.
    + apply Zfloor_lub. simpl. lra.
  - apply Zceil_le. lra.
Qed.

(** X1. [get_index] keeps the order of coordinates: a point that lies
    further north and further east gets indices that are not smaller. *)
Theorem get_index_monotone
    (lat1 lon1 lat2 lon2 minlat minlon pixelsize : R) (offset : Z) :
  0 < pixelsize → lat1 <= lat2 → lon1 <= lon2 →
  ((get_index lat1 lon1 minlat minlon pixelsize offset).1
   <= (get_index lat2 lon2 minlat minlon pixelsize offset).1)%Z
  ∧ ((get_index lat1 lon1 minlat minlon pixelsize offset).2
     <= (get_index lat2 lon2 minlat minlon pixelsize offset).2)%Z.
Proof.
  intros Hp Hlat Hlon. unfold get_index. simpl.
  assert (Hinv : 0 < / pixelsize) by (apply Rinv_0_lt_compat; exact Hp).
  split; apply Z.add_le_mono_r, py_round_le;
    apply Rmult_le_compat_r; lra.
Qed.

Lemma get_index_monotone_witness :
  ((get_index 0.001 0.002 0 0 0.002 1).1
   <= (get_index 0.003 0.004 0 0 0.002 1).1)%Z
  ∧ ((get_index 0.001 0.002 0 0 0.002 1).2
     <= (get_index 0.003 0.004 0 0 0.002 1).2)%Z.
Proof.
  apply (get_index_monotone 0.001 0.002 0.003 0.004 0 0 0.002 1); lra.
Defined.

(** X2. A point that lies a whole number of pixels from the minimum corner
    gets exactly that number plus the offset; the corner itself gets
    (offset, offset). *)
Theorem get_index_on_lattice
    (minlat minlon pixelsize : R) (row col offset : Z) :
  0 < pixelsize →
  get_index (minlat + IZR row * pixelsize) (minlon + IZR col * pixelsize)
    minlat minlon pixelsize offset
  = ((col + offset)%Z, (row + offset)%Z)
  ∧ get_index minlat minlon minlat minlon pixelsize offset = (offset, offset).
Proof.
  intros Hp. unfold get_index. split.
  - replace ((minlon + IZR col * pixelsize - minlon) / pixelsize)
      with (IZR col) by (field; lra).
    replace ((minlat + IZR row * pixelsize - minlat) / pixelsize)
      with (IZR row) by (field; lra).
    rewrite !py_round_IZR. reflexivity.
  - replace ((minlon - minlon) / pixelsize) with (IZR 0) by (field; lra).
    replace ((minlat - minlat) / pixelsize) with (IZR 0) by (field; lra).
    rewrite !py_round_IZR. reflexivity.
Qed.

Lemma get_index_on_lattice_witness :
  get_index (10 + IZR 3 * 0.002) (20 + IZR 5 * 0.002) 10 20 0.002 1
  = ((5 + 1)%Z, (3 + 1)%Z)
  ∧ get_index 10 20 10 20 0.002 1 = (1%Z, 1%Z).
Proof.
  apply (get_index_on_lattice 10 20 0.002 3 5 1). lra.
Defined.





(** X4. [int()] drops the fraction towards zero: a point less than one
    pixel below the corner gets the index 0 as well, so the pixel 0 of
    [get_index2] is twice as wide as the others. *)
Theorem get_index2_below_corner
    (lat lon LL_lat LL_lon pixelsize : R) :
  0 < pixelsize →
  LL_lat - pixelsize < lat <= LL_lat → LL_lon - pixelsize < lon <= LL_lon →
  get_index2 lat lon LL_lat LL_lon pixelsize = (0%Z, 0%Z).
Proof.
  intros Hp Hlat Hlon.
  assert (Hzero : ∀ t, -1 < t <= 0 → py_trunc t = 0%Z).
  { intros t Ht. unfold py_trunc. destruct (Rle_dec 0 t).
    - apply Zfloor_eq. simpl. lra.
    - apply Zceil_eq. simpl. lra. }
  assert (Hq : ∀ x c, c - pixelsize < x <= c → -1 < (x - c) / pixelsize <= 0).
  { intros x c Hx.
    assert (E : (x - c) / pixelsize * pixelsize = x - c) by (field; lra).
    split; nra. }
  unfold get_index2. rewrite !Hzero by (apply Hq; assumption). reflexivity.
Qed.

Lemma get_index2_below_corner_witness :
  get_index2 (-0.001) (-0.0005) 0 0 0.002 = (0%Z, 0%Z).
Proof.
  apply (get_index2_below_corner (-0.001) (-0.0005) 0 0 0.002); lra.
Defined.

(** ** The batch of depths: errors and subscripts *)

Lemma norm_index_lt (n k : nat) (i : Z) :
  norm_index n i = Some k → (k < n)%nat.
Proof.
  unfold norm_index.
  destruct (Z.leb_spec 0 i).
  - destruct (Z.ltb_spec i (Z.of_nat n)); [| discriminate].
    intros [= <-]. lia.
  - destruct (Z.leb_spec (- Z.of_nat n) i); [| discriminate].
    intros [= <-]. lia.
Qed.

Lemma getitem_norm {A} (l : list A) (i : Z) (k : nat) (d : A) :
  norm_index (length l) i = Some k → getitem l i = mret (nth k l d).
Proof.
  intros H. unfold getitem. rewrite H. simpl.
  destruct (lookup_lt_is_Some_2 l k (norm_index_lt _ _ _ H)) as [a Ha].
  rewrite Ha, (nth_of_lookup _ _ _ a Ha). reflexivity.
Qed.

Lemma norm_index_same_length (n m k : nat) (i : Z) :
  m = n → norm_index n i = Some k → norm_index m i = Some k.
Proof. intros -> H. exact H. Qed.

(** A station in which the subscript [i] denotes position [k], with one
    resistivity array and one determinant per frequency. *)
Definition station_at (i : Z) (k : nat) (s : MT_obj) : Prop :=
  norm_index (length (freq (mt_Z s))) i = Some k
  ∧ length (resistivity (mt_Z s)) = length (freq (mt_Z s))
  ∧ length (det (mt_Z s)).1 = length (freq (mt_Z s)).

Lemma penetration_depth_of_at (whichrho : string) (i : Z) (k : nat)
    (s : MT_obj) :
  valid_selector whichrho → station_at i k s →
  penetration_depth_of (mt_Z s) i whichrho (spec_period k s)
  = mret (- spec_depth whichrho k s).
Proof.
  intros Hsel (Hi & Hrho & Hdet).
  unfold penetration_depth_of, spec_depth.
  rewrite (getitem_norm (resistivity (mt_Z s)) i k (mk_mat2 0 0 0 0))
    by (eapply norm_index_same_length; eassumption).
  rewrite (getitem_norm (det (mt_Z s)).1 i k (0, 0))
    by (eapply norm_index_same_length; eassumption).
  destruct Hsel as [-> | [-> | ->]]; simpl;
    unfold M_bind, mret, M_ret; simpl; do 2 f_equal; ring.
Qed.

Lemma norm_index_not_past (n k : nat) (i : Z) :
  norm_index n i = Some k → (i >=? Z.of_nat n)%Z = false.
Proof.
  unfold norm_index. intros H.
  destruct (Z.geb_spec i (Z.of_nat n)) as [Hge | Hlt]; [| reflexivity].
  destruct (Z.leb_spec 0 i); [| lia].
  destruct (Z.ltb_spec i (Z.of_nat n)); [lia | discriminate].
Qed.

(** The loop over a run of stations that all have the subscript: nothing
    is logged, and the four lists grow by one item per station. *)
Lemma penetration_depth_loop_app (whichrho : string) (i : Z)
    (pos : MT_obj → nat) (pre rest : list MT_obj) :
  valid_selector whichrho → Forall (λ s, station_at i (pos s) s) pre →
  ∀ stations periods pendep latlons,
    penetration_depth_loop (pre ++ rest) i whichrho
      stations periods pendep latlons
    = penetration_depth_loop rest i whichrho
        (stations ++ map station pre)
        (periods ++ map (λ s, spec_period (pos s) s) pre)
        (pendep ++ map (λ s, - spec_depth whichrho (pos s) s) pre)
        (latlons ++ map (λ s, (lat s, lon s)) pre).
Proof.
  intros Hsel Hall.
  induction Hall as [| s pre Hs Hpre IH];
    intros stations periods pendep latlons.
  - simpl. rewrite !app_nil_r. reflexivity.
  - simpl app. cbn [penetration_depth_loop].
    rewrite (norm_index_not_past _ _ _ (proj1 Hs)).
    rewrite (getitem_norm (freq (mt_Z s)) i (pos s) 0 (proj1 Hs)), bind_ret_l.
    change (1 / nth (pos s) (freq (mt_Z s)) 0) with (spec_period (pos s) s).
    rewrite (penetration_depth_of_at whichrho i (pos s) s Hsel Hs), bind_ret_l.
    rewrite IH. simpl map. rewrite <- !app_assoc. reflexivity.
Qed.

(** X5. A station that has no frequency at the (zero-based) index ends
    [get_penetration_depth] for the whole batch with the index exception,
    whatever stations come after it; before the first station the
    selector has not been looked at. *)
Theorem get_penetration_depth_index_out_of_range
    (whichrho : string) (i : nat) (pre post : list MT_obj) (s : MT_obj) :
  valid_selector whichrho ∨ pre = [] →
  Forall (station_ready i) pre →
  (length (freq (mt_Z s)) <= i)%nat →
  result (get_penetration_depth (pre ++ s :: post) (Z.of_nat i) whichrho)
  = Raise (Exception "Index out_of_range Error: period index must be less than number of periods in zeta.freq").
Proof.
  intros Hsel Hpre Hshort. unfold get_penetration_depth. apply bind_raises.
  assert (Htail : ∀ st pe pd ll,
            result (penetration_depth_loop (s :: post) (Z.of_nat i) whichrho
                      st pe pd ll)
            = Raise (Exception "Index out_of_range Error: period index must be less than number of periods in zeta.freq")).
  { intros st pe pd ll. cbn [penetration_depth_loop].
    destruct (Z.geb_spec (Z.of_nat i) (Z.of_nat (length (freq (mt_Z s)))));
      [reflexivity | lia]. }
  destruct Hsel as [Hsel | ->]; [| apply Htail].
  rewrite (penetration_depth_loop_app whichrho (Z.of_nat i) (λ _, i)).
  - apply Htail.
  - exact Hsel.
  - eapply Forall_impl; [exact Hpre |].
    intros t (Hi & Hrho & Hdet). repeat split; try assumption.
    apply norm_index_nat. exact Hi.
Qed.

Lemma get_penetration_depth_index_out_of_range_witness :
  result (get_penetration_depth ([station_a] ++ station_empty :: [station_b])
            (Z.of_nat 0) "det")
  = Raise (Exception "Index out_of_range Error: period index must be less than number of periods in zeta.freq").
Proof.
  apply (get_penetration_depth_index_out_of_range "det" 0 [station_a]
           [station_b] station_empty).
  - left. right. right. reflexivity.
  - repeat constructor; simpl; lia.
  - simpl. lia.
Defined.

(** X6. A negative index is not rejected: [-j] selects, in every station,
    the [j]-th frequency from the end, and the batch is computed for those
    positions (with [-1], the last frequency of each station). *)
Theorem get_penetration_depth_negative_index
    (whichrho : string) (j : nat) (files : list MT_obj) :
  valid_selector whichrho → files ≠ [] → (1 <= j)%nat →
  Forall (λ s, (j <= length (freq (mt_Z s)))%nat
               ∧ length (resistivity (mt_Z s)) = length (freq (mt_Z s))
               ∧ length (det (mt_Z s)).1 = length (freq (mt_Z s))) files →
  result (get_penetration_depth files (- Z.of_nat j) whichrho)
  = Return
      (map station files,
       map (λ s, spec_period (length (freq (mt_Z s)) - j) s) files,
       map (λ s, - spec_depth whichrho (length (freq (mt_Z s)) - j) s) files,
       map (λ s, (lat s, lon s)) files).
Proof.
  intros Hsel Hne Hj Hall. unfold get_penetration_depth.
  pose proof (penetration_depth_loop_app whichrho (- Z.of_nat j)
                (λ s, (length (freq (mt_Z s)) - j)%nat) files [] Hsel)
    as Hloop.
  rewrite app_nil_r in Hloop. rewrite Hloop.
  - cbn [penetration_depth_loop]. rewrite bind_ret_l. simpl app.
    destruct files as [| s rest]; [contradiction |].
    destruct (check_period_values_cons
                (spec_period (length (freq (mt_Z s)) - j) s)
                (map (λ s, spec_period (length (freq (mt_Z s)) - j) s) rest))
      as (b & Hb & _).
    simpl map. rewrite (bind_returns _ _ b) by exact Hb. reflexivity.
  - eapply Forall_impl; [exact Hall |].
    intros s (Hlen & Hrho & Hdet). repeat split; try assumption.
    unfold norm_index.
    destruct (Z.leb_spec 0 (- Z.of_nat j)); [lia |].
    destruct (Z.leb_spec (- Z.of_nat (length (freq (mt_Z s)))) (- Z.of_nat j));
      [| lia].
    f_equal. lia.
Qed.

Lemma get_penetration_depth_negative_index_witness :
  result (get_penetration_depth [station_a; station_c] (- Z.of_nat 1) "zxy")
  = Return
      (map station [station_a; station_c],
       map (λ s, spec_period (length (freq (mt_Z s)) - 1) s)
         [station_a; station_c],
       map (λ s, - spec_depth "zxy" (length (freq (mt_Z s)) - 1) s)
         [station_a; station_c],
       map (λ s, (lat s, lon s)) [station_a; station_c]).
Proof.
  apply (get_penetration_depth_negative_index "zxy" 1 [station_a; station_c]).
  - left. reflexivity.
  - discriminate.
  - lia.
  - repeat constructor; simpl; lia.
Defined.

(** ** An empty directory *)



(** ** The CSV table *)

Lemma filter_split_length {A} (P : A → Prop) `{∀ x, Decision (P x)}
    (l : list A) :
  (length (filter P l) + length (filter (λ x, ¬ P x) l))%nat = length l.
Proof.
  induction l as [| x l IH]; [reflexivity |].
  rewrite !filter_cons.
  destruct (decide (P x)) as [HP | HP].
  - rewrite decide_False by (intros Hn; exact (Hn HP)). simpl. lia.
  - rewrite decide_True by exact HP. simpl. lia.
Qed.

(** X8. [create_csv_file] accounts for every station: the number of rows
    of the table it hands to the writer plus the number of errors it logs
    is the number of station files; every row is the row of a station of
    the batch, and the first station is never left out. The table is the
    value returned when the file was written; otherwise the call ends with
    the writer's exception. *)
Theorem create_csv_file_accounts_for_every_station
    (glob_edi : string → list MT_obj) (fmt_2f : R → string)
    (write_rows : string → list (R * R * string) → option exn)
    (edi_dir : string) (outputcsv : option string) (zcomponent : string) :
  Forall csv_ready (glob_edi edi_dir) →
  ∃ rows : list (R * R * string),
    result (create_csv_file glob_edi fmt_2f write_rows edi_dir outputcsv
              zcomponent)
      = after_write (write_rows (csv_target outputcsv) rows) rows
    ∧ (length rows
       + count_level ERROR
           (logs (create_csv_file glob_edi fmt_2f write_rows edi_dir outputcsv
                    zcomponent)))%nat
      = length (glob_edi edi_dir)
    ∧ (∀ row, row ∈ rows →
         ∃ s, s ∈ glob_edi edi_dir ∧ row = csv_row fmt_2f s)
    ∧ (∀ s0 rest, glob_edi edi_dir = s0 :: rest →
         head rows = Some (csv_row fmt_2f s0)).
Proof.
  intros Hready.
  destruct (glob_edi edi_dir) as [| s0 rest] eqn:Hglob.
  - assert (Hloop : result (csv_loop fmt_2f (glob_edi edi_dir) None [])
                    = Return []).
    { rewrite Hglob. reflexivity. }
    destruct (create_csv_file_after_loop glob_edi fmt_2f write_rows edi_dir
                outputcsv zcomponent [] Hloop) as [Hend Hcount].
    exists []. split; [exact Hend |]. split.
    + rewrite Hcount, Hglob. reflexivity.
    + split; [| discriminate]. intros row Hrow. inversion Hrow.
  - destruct (create_csv_file_rows glob_edi fmt_2f write_rows edi_dir
                outputcsv zcomponent s0 rest Hglob Hready) as [Hrows Hlogs].
    eexists. split; [exact Hrows |]. rewrite Hlogs, length_map.
    split; [apply filter_split_length |]. split.
    + intros row Hrow. apply list_elem_of_fmap in Hrow as (s & -> & Hs).
      exists s. split; [| reflexivity].
      apply list_elem_of_filter in Hs as [_ Hs]. exact Hs.
    + intros s1 rest1 [= <- <-].
      rewrite filter_cons, decide_True by reflexivity. reflexivity.
Qed.

Lemma create_csv_file_accounts_for_every_station_witness :
  ∃ rows : list (R * R * string),
    result (create_csv_file mismatch_batch (λ _, "0.00"%string)
              any_file_writable "d" None "det")
      = after_write (any_file_writable (csv_target None) rows) rows
    ∧ (length rows
       + count_level ERROR
           (logs (create_csv_file mismatch_batch (λ _, "0.00"%string)
                    any_file_writable "d" None "det")))%nat
      = length (mismatch_batch "d")
    ∧ (∀ row, row ∈ rows →
         ∃ s, s ∈ mismatch_batch "d" ∧ row = csv_row (λ _, "0.00"%string) s)
    ∧ (∀ s0 rest, mismatch_batch "d" = s0 :: rest →
         head rows = Some (csv_row (λ _, "0.00"%string) s0)).
Proof.
  apply (create_csv_file_accounts_for_every_station mismatch_batch
           (λ _, "0.00"%string) any_file_writable "d" None "det").
  exact mismatch_batch_ready.
Defined.

(** ** The depths of one station file *)

Lemma py_in_false (x : string) (l : list string) :
  x ∉ l → py_in x l = false.
Proof.
  intros H. unfold py_in. induction l as [| y l IH]; [reflexivity |].
  simpl. apply not_elem_of_cons in H as [Hne Hl].
  rewrite (proj2 (String.eqb_neq x y) Hne). simpl. apply IH. exact Hl.
Qed.

Lemma py_in_true (x : string) (l : list string) :
  x ∈ l → py_in x l = true.
Proof.
  intros H. unfold py_in. induction l as [| y l IH]; [inversion H |].
  simpl. apply elem_of_cons in H as [-> | Hl].
  - rewrite String.eqb_refl. reflexivity.
  - rewrite (IH Hl). apply orb_true_r.
Qed.

(** X9. The depth that the CSV export computes for a station at index [i]
    is the absolute value of the depth that [get_penetration_depth]
    computes there for the selector det: the export stores the magnitude,
    the batch function its negative. *)
Theorem csv_depth_is_magnitude_of_batch_depth (i : nat) (s : MT_obj) :
  station_ready i s →
  ∃ (periods depths : list R) (d : R),
    result (get_penetration_depths_from_edi_file s ["det"%string])
      = Return (lat s, lon s, periods, depths)
    ∧ result (get_penetration_depth [s] (Z.of_nat i) "det")
      = Return ([station s], [spec_period i s], [d], [(lat s, lon s)])
    ∧ periods !! i = Some (spec_period i s)
    ∧ depths !! i = Some (Rabs d)
    ∧ d = - Rabs d.
Proof.
  intros Hready. pose proof Hready as (Hi & Hrho & Hdet).
  exists (station_periods s), (det_depths s), (- spec_depth "det" i s).
  rewrite (edi_file_det_depths s Hdet).
  split; [reflexivity |].
  split.
  { apply (get_penetration_depth_returns "det" i [s]).
    - right. right. reflexivity.
    - discriminate.
    - constructor; [exact Hready | constructor]. }
  destruct (lookup_lt_is_Some_2 (freq (mt_Z s)) i Hi) as [f Hf].
  destruct (lookup_lt_is_Some_2 (det (mt_Z s)).1 i) as [c Hc]; [lia |].
  assert (Hper : station_periods s !! i = Some (spec_period i s)).
  { unfold station_periods, spec_period.
    rewrite list_lookup_fmap, Hf, (nth_of_lookup _ _ _ f Hf). reflexivity. }
  assert (Habs : Rabs (- spec_depth "det" i s) = spec_depth "det" i s).
  { rewrite Rabs_Ropp. apply Rabs_pos_eq, spec_depth_nonneg. }
  rewrite Habs. split; [exact Hper |]. split; [| reflexivity].
  unfold det_depths.
  rewrite list_lookup_fmap, !lookup_zip_with, !list_lookup_fmap, Hper, Hc.
  simpl. unfold spec_depth. rewrite (nth_of_lookup _ _ _ c Hc). reflexivity.
Qed.

Lemma csv_depth_is_magnitude_of_batch_depth_witness :
  ∃ (periods depths : list R) (d : R),
    result (get_penetration_depths_from_edi_file station_b ["det"%string])
      = Return (lat station_b, lon station_b, periods, depths)
    ∧ result (get_penetration_depth [station_b] (Z.of_nat 0) "det")
      = Return ([station station_b], [spec_period 0 station_b], [d],
                [(lat station_b, lon station_b)])
    ∧ periods !! 0%nat = Some (spec_period 0 station_b)
    ∧ depths !! 0%nat = Some (Rabs d)
    ∧ d = - Rabs d.
Proof.
  apply (csv_depth_is_magnitude_of_batch_depth 0 station_b).
  repeat split; simpl; lia.
Defined.

(** X10. When [rholist] names none of zxy, zyx and det,
    [get_penetration_depths_from_edi_file] has no depth to return and ends
    with [UnboundLocalError], for every station. *)
Theorem edi_file_depths_without_selector
    (s : MT_obj) (rholist : list string) :
  "zxy"%string ∉ rholist → "zyx"%string ∉ rholist →
  "det"%string ∉ rholist →
  result (get_penetration_depths_from_edi_file s rholist)
  = Raise UnboundLocalError.
Proof.
  intros Hxy Hyx Hdet. unfold get_penetration_depths_from_edi_file.
  rewrite (py_in_false _ _ Hxy), (py_in_false _ _ Hyx),
    (py_in_false _ _ Hdet).
  reflexivity.
Qed.

Lemma edi_file_depths_without_selector_witness :
  result (get_penetration_depths_from_edi_file station_a ["xy"%string])
  = Raise UnboundLocalError.
Proof.
  apply (edi_file_depths_without_selector station_a ["xy"%string]);
    intros H; apply list_elem_of_singleton in H; discriminate H.
Defined.

(** X11. When [rholist] contains det, the depths returned are those of the
    determinant, whatever else the list names and in whatever order: the
    three tests run in the fixed order zxy, zyx, det and the last one that
    applies wins. *)
Theorem edi_file_depths_det_wins (s : MT_obj) (rholist : list string) :
  "det"%string ∈ rholist →
  length (resistivity (mt_Z s)) = length (freq (mt_Z s)) →
  length (det (mt_Z s)).1 = length (freq (mt_Z s)) →
  result (get_penetration_depths_from_edi_file s rholist)
  = Return (lat s, lon s, station_periods s, det_depths s).
Proof.
  intros Hin Hrho Hdet. unfold get_penetration_depths_from_edi_file.
  rewrite (py_in_true _ _ Hin). fold (station_periods s).
  rewrite !result_log.
  assert (Hb1 : ∀ g, broadcast Rmult (map g (resistivity (mt_Z s)))
                       (station_periods s)
                     = mret (zip_with Rmult (map g (resistivity (mt_Z s)))
                               (station_periods s))).
  { intros g. apply broadcast_same_length.
    unfold station_periods. rewrite !length_map. exact Hrho. }
  assert (Hb2 : broadcast Rmult (map (Rmult 0.2) (station_periods s))
                  (map abs_complex (det (mt_Z s)).1)
                = mret (zip_with Rmult (map (Rmult 0.2) (station_periods s))
                          (map abs_complex (det (mt_Z s)).1))).
  { apply broadcast_same_length.
    unfold station_periods. rewrite !length_map. congruence. }
  assert (Hb3 : broadcast Rmult
                  (zip_with Rmult (map (Rmult 0.2) (station_periods s))
                     (map abs_complex (det (mt_Z s)).1))
                  (station_periods s)
                = mret (zip_with Rmult
                          (zip_with Rmult (map (Rmult 0.2) (station_periods s))
                             (map abs_complex (det (mt_Z s)).1))
                          (station_periods s))).
  { apply broadcast_same_length. rewrite length_zip_with.
    unfold station_periods. rewrite !length_map. lia. }
  rewrite !Hb1, Hb2.
  destruct (py_in "zxy" rholist), (py_in "zyx" rholist);
    rewrite ?bind_ret_l, ?Hb3, ?bind_ret_l; reflexivity.
Qed.

Lemma edi_file_depths_det_wins_witness :
  result (get_penetration_depths_from_edi_file station_a
            ["det"; "zxy"]%string)
  = Return (lat station_a, lon station_a, station_periods station_a,
            det_depths station_a).
Proof.
  apply (edi_file_depths_det_wins station_a ["det"; "zxy"]%string).
  - left.
  - reflexivity.
  - reflexivity.
Defined.

(** ** The raster handed to the presentation layer *)

Lemma last_with_same_image {A B} `{EqDecision B} (f : A → B) (l : list A) :
  ∀ k p, l !! k = Some p →
    ∃ k' p', (k <= k')%nat ∧ l !! k' = Some p' ∧ f p' = f p
      ∧ ∀ k'' p'', (k' < k'')%nat → l !! k'' = Some p'' → f p'' ≠ f p'.
Proof.
  induction l as [| x l IH] using rev_ind; intros k p Hk.
  - rewrite lookup_nil in Hk. discriminate.
  - destruct (decide (f x = f p)) as [Heq | Hne].
    + exists (length l), x. split.
      * apply lookup_lt_Some in Hk. rewrite length_app in Hk. simpl in Hk. lia.
      * split; [apply list_lookup_middle; reflexivity |].
        split; [exact Heq |].
        intros k'' p'' Hlt Hk''. apply lookup_lt_Some in Hk''.
        rewrite length_app in Hk''. simpl in Hk''. lia.
    + assert (Hkl : (k < length l)%nat).
      { destruct (decide (k < length l)%nat) as [Hlt | Hge]; [exact Hlt |].
        exfalso. apply Hne.
        pose proof (lookup_lt_Some _ _ _ Hk) as Hb.
        rewrite length_app in Hb. simpl in Hb.
        assert (k = length l) as -> by lia.
        rewrite list_lookup_middle in Hk by reflexivity.
        injection Hk as ->. reflexivity. }
      rewrite lookup_app_l in Hk by exact Hkl.
      destruct (IH k p Hk) as (k' & p' & Hle & Hk' & Hfp & Hlater).
      exists k', p'. split; [exact Hle |].
      split; [rewrite lookup_app_l by (eapply lookup_lt_Some; exact Hk');
              exact Hk' |].
      split; [exact Hfp |].
      intros k'' p'' Hlt Hk''.
      destruct (decide (k'' < length l)%nat) as [Hin | Hout].
      * rewrite lookup_app_l in Hk'' by exact Hin.
        apply (Hlater k'' p'' Hlt Hk'').
      * pose proof (lookup_lt_Some _ _ _ Hk'') as Hb.
        rewrite length_app in Hb. simpl in Hb.
        assert (k'' = length l) as -> by lia.
        rewrite list_lookup_middle in Hk'' by reflexivity.
        injection Hk'' as <-. congruence.
Qed.

(** X12. The padding of the raster stays empty: in the raster that
    [plot_gridded_profile] builds, which has at least 4 rows and 4
    columns, the first two rows, the last row, the first column and the
    last two columns hold NaN, whatever the stations are. *)
Theorem raster_padding_stays_empty
    (glob_edi : string → list MT_obj) (edi_dir : string) (period_index : Z)
    (zcomponent : string) (stations : list string) (periods pendep : list R)
    (latlons : list (R * R)) :
  result (get_penetration_depth (glob_edi edi_dir) period_index zcomponent)
    = Return (stations, periods, pendep, latlons) →
  ∃ (zdep : ndarray) (points : list (R * R)) (values : list R),
    result (plot_gridded_profile glob_edi edi_dir period_index zcomponent)
      = Return (zdep, points, values)
    ∧ (4 <= shape0 zdep)%nat ∧ (4 <= shape1 zdep)%nat
    ∧ ∀ r c,
        (r < shape0 zdep)%nat → (c < shape1 zdep)%nat →
        (r < 2)%nat ∨ r = (shape0 zdep - 1)%nat
        ∨ c = 0%nat ∨ (shape1 zdep - 2 <= c)%nat →
        at2 zdep r c = Some nan.
Proof.
  intros Hbatch.
  destruct (batch_grid_ready _ _ _ _ _ _ _ _ Hbatch) as [Hne Hlen].
  destruct (grid_samples_spec latlons pendep Hne Hlen)
    as (minlon & maxlon & minlat & maxlat & zdep & _ & Hgrid & _
        & Hs0 & Hs1 & Hcells & _ & Hnan).
  eexists zdep, _, _.
  split.
  { rewrite (plot_gridded_profile_result _ _ _ _ _ _ _ _ Hbatch).
    exact Hgrid. }
  destruct latlons as [| p0 rest]; [contradiction |].
  destruct (Hcells p0 (list_elem_of_here _ _)) as [Hr0 Hc0].
  split; [lia |]. split; [lia |].
  intros r c Hr Hc Hedge. apply Hnan; [exact Hr | exact Hc |].
  intros p Hp Heq. destruct (Hcells p Hp) as [Hrow Hcol].
  rewrite Heq in Hrow, Hcol. simpl in Hrow, Hcol. lia.
Qed.

Lemma raster_padding_stays_empty_witness :
  ∃ (zdep : ndarray) (points : list (R * R)) (values : list R),
    result (plot_gridded_profile mismatch_batch "d" 0 "det")
      = Return (zdep, points, values)
    ∧ (4 <= shape0 zdep)%nat ∧ (4 <= shape1 zdep)%nat
    ∧ ∀ r c,
        (r < shape0 zdep)%nat → (c < shape1 zdep)%nat →
        (r < 2)%nat ∨ r = (shape0 zdep - 1)%nat
        ∨ c = 0%nat ∨ (shape1 zdep - 2 <= c)%nat →
        at2 zdep r c = Some nan.
Proof.
  exact (raster_padding_stays_empty mismatch_batch "d" 0 "det" _ _ _ _
           mismatch_batch_returns).
Defined.

(** X13. No station is lost without trace: in the raster of
    [plot_gridded_profile] the cell of every station holds a number, never
    NaN, and that number is abs(depth) of a station at the same or a later
    position of the batch that maps to the same cell. *)
Theorem raster_cell_of_every_station_is_populated
    (glob_edi : string → list MT_obj) (edi_dir : string) (period_index : Z)
    (zcomponent : string) (stations : list string) (periods pendep : list R)
    (latlons : list (R * R)) :
  result (get_penetration_depth (glob_edi edi_dir) period_index zcomponent)
    = Return (stations, periods, pendep, latlons) →
  ∃ (minlon maxlon minlat maxlat : R) (zdep : ndarray)
    (points : list (R * R)) (values : list R),
    result (get_bounding_box latlons)
      = Return ((minlon, maxlon), (minlat, maxlat))
    ∧ result (plot_gridded_profile glob_edi edi_dir period_index zcomponent)
      = Return (zdep, points, values)
    ∧ ∀ k p,
        latlons !! k = Some p →
        let rc := raster_cell minlat minlon 0.002 (shape0 zdep) p in
        ∃ k' p' d',
          (k <= k')%nat ∧ latlons !! k' = Some p' ∧ pendep !! k' = Some d'
          ∧ raster_cell minlat minlon 0.002 (shape0 zdep) p' = rc
          ∧ at2 zdep (Z.to_nat rc.1) (Z.to_nat rc.2) = Some (val (Rabs d'))
          ∧ 0 <= Rabs d'.
Proof.
  intros Hbatch.
  destruct (batch_grid_ready _ _ _ _ _ _ _ _ Hbatch) as [Hne Hlen].
  destruct (grid_samples_spec latlons pendep Hne Hlen)
    as (minlon & maxlon & minlat & maxlat & zdep & Hbox & Hgrid & _
        & _ & _ & _ & Hlast & _).
  exists minlon, maxlon, minlat, maxlat, zdep. eexists _, _.
  split; [exact Hbox |]. split.
  { rewrite (plot_gridded_profile_result _ _ _ _ _ _ _ _ Hbatch).
    exact Hgrid. }
  intros k p Hk rc.
  destruct (last_with_same_image
              (raster_cell minlat minlon 0.002 (shape0 zdep)) latlons k p Hk)
    as (k' & p' & Hle & Hk' & Hsame & Hlater).
  destruct (lookup_lt_is_Some_2 pendep k') as [d' Hd'].
  { rewrite Hlen. eapply lookup_lt_Some. exact Hk'. }
  exists k', p', d'.
  split; [exact Hle |]. split; [exact Hk' |]. split; [exact Hd' |].
  split; [exact Hsame |]. split; [| apply Rabs_pos].
  unfold rc. rewrite <- Hsame. apply (Hlast k' p' d' Hk' Hd' Hlater).
Qed.

Lemma raster_cell_of_every_station_is_populated_witness :
  ∃ (minlon maxlon minlat maxlat : R) (zdep : ndarray)
    (points : list (R * R)) (values : list R),
    result (get_bounding_box [(0, 0); (0.02, 0.01); (0.01, 0.02)])
      = Return ((minlon, maxlon), (minlat, maxlat))
    ∧ result (plot_gridded_profile mismatch_batch "d" 0 "det")
      = Return (zdep, points, values)
    ∧ ∀ k p,
        [(0, 0); (0.02, 0.01); (0.01, 0.02)] !! k = Some p →
        let rc := raster_cell minlat minlon 0.002 (shape0 zdep) p in
        ∃ k' p' d',
          (k <= k')%nat
          ∧ [(0, 0); (0.02, 0.01); (0.01, 0.02)] !! k' = Some p'
          ∧ [- spec_depth "det" 0 station_a; - spec_depth "det" 0 station_c;
             - spec_depth "det" 0 station_b] !! k' = Some d'
          ∧ raster_cell minlat minlon 0.002 (shape0 zdep) p' = rc
          ∧ at2 zdep (Z.to_nat rc.1) (Z.to_nat rc.2) = Some (val (Rabs d'))
          ∧ 0 <= Rabs d'.
Proof.
  exact (raster_cell_of_every_station_is_populated mismatch_batch "d" 0 "det"
           _ _ _ _ mismatch_batch_returns).
Defined.



(** X15. The sample points never leave the raster: [plot_gridded_profile]
    hands to [griddata] one point and one value per station; the row of
    every point lies between 3 and height - 1, its column between 1 and
    width - 3, and no value is negative. *)
Theorem sample_points_inside_raster
    (glob_edi : string → list MT_obj) (edi_dir : string) (period_index : Z)
    (zcomponent : string) (stations : list string) (periods pendep : list R)
    (latlons : list (R * R)) :
  result (get_penetration_depth (glob_edi edi_dir) period_index zcomponent)
    = Return (stations, periods, pendep, latlons) →
  ∃ (zdep : ndarray) (points : list (R * R)) (values : list R),
    result (plot_gridded_profile glob_edi edi_dir period_index zcomponent)
      = Return (zdep, points, values)
    ∧ length points = length (glob_edi edi_dir)
    ∧ length values = length (glob_edi edi_dir)
    ∧ (∀ k q, points !! k = Some q →
         ∃ row col : Z,
           q = (IZR row, IZR col)
           ∧ (3 <= row <= Z.of_nat (shape0 zdep) - 1)%Z
           ∧ (1 <= col <= Z.of_nat (shape1 zdep) - 3)%Z)
    ∧ (∀ k v, values !! k = Some v → 0 <= v).
Proof.
  intros Hbatch.
  destruct (batch_grid_ready _ _ _ _ _ _ _ _ Hbatch) as [Hne Hlen].
  destruct (get_penetration_depth_inv _ _ _ _ _ _ _ Hbatch)
    as (_ & Hll & _ & Hpd).
  destruct (grid_samples_spec latlons pendep Hne Hlen)
    as (minlon & maxlon & minlat & maxlat & zdep & _ & Hgrid & _
        & _ & _ & Hcells & _).
  eexists zdep, _, _. split.
  { rewrite (plot_gridded_profile_result _ _ _ _ _ _ _ _ Hbatch).
    exact Hgrid. }
  split; [rewrite length_map, Hll, length_map; reflexivity |].
  split; [rewrite length_map; exact Hpd |]. split.
  - intros k q Hq. rewrite list_lookup_fmap in Hq.
    destruct (latlons !! k) as [p |] eqn:Hp; [| discriminate Hq].
    simpl in Hq. injection Hq as <-.
    destruct (Hcells p (list_elem_of_lookup_2 _ _ _ Hp)) as [Hrow Hcol].
    rewrite sample_point_row_below. eexists _, _.
    split; [reflexivity |]. lia.
  - intros k v Hv. rewrite list_lookup_fmap in Hv.
    destruct (pendep !! k) as [d |]; [| discriminate Hv].
    injection Hv as <-. apply Rabs_pos.
Qed.

Lemma sample_points_inside_raster_witness :
  ∃ (zdep : ndarray) (points : list (R * R)) (values : list R),
    result (plot_gridded_profile mismatch_batch "d" 0 "det")
      = Return (zdep, points, values)
    ∧ length points = length (mismatch_batch "d")
    ∧ length values = length (mismatch_batch "d")
    ∧ (∀ k q, points !! k = Some q →
         ∃ row col : Z,
           q = (IZR row, IZR col)
           ∧ (3 <= row <= Z.of_nat (shape0 zdep) - 1)%Z
           ∧ (1 <= col <= Z.of_nat (shape1 zdep) - 3)%Z)
    ∧ (∀ k v, values !! k = Some v → 0 <= v).
Proof.
  exact (sample_points_inside_raster mismatch_batch "d" 0 "det" _ _ _ _
           mismatch_batch_returns).
Defined.

(** ** The process never ends through [sys.exit] with a supported selector *)

(** A computation that does not end by [sys.exit]. *)
Definition never_exits {A} (m : M A) : Prop :=
  ∀ code, result m ≠ Raise (SystemExit code).

Lemma never_exits_bind {A B} (m : M A) (f : A → M B) :
  never_exits m → (∀ a, never_exits (f a)) → never_exits (m ≫= f).
Proof.
  intros Hm Hf code. rewrite result_bind.
  destruct (result m) as [a | e] eqn:E.
  - apply Hf.
  - intros [= ->]. exact (Hm code E).
Qed.

Lemma never_exits_ret {A} (a : A) : never_exits (mret a : M A).
Proof. intros code. discriminate. Qed.

Lemma never_exits_log (l : level) (fmt : string) : never_exits (log l fmt).
Proof. intros code. discriminate. Qed.

Lemma never_exits_getitem {A} (l : list A) (i : Z) : never_exits (getitem l i).
Proof.
  intros code. unfold getitem.
  destruct (norm_index (length l) i ≫= _); discriminate.
Qed.

Lemma never_exits_setitem1 {A} (a : list A) (i : Z) (v : A) :
  never_exits (setitem1 a i v).
Proof.
  intros code. unfold setitem1. destruct (norm_index (length a) i);
    discriminate.
Qed.

Lemma never_exits_setitem2 (a : ndarray) (i j : Z) (v : cell) :
  never_exits (setitem2 a i j v).
Proof.
  intros code. unfold setitem2.
  destruct (norm_index (shape0 a) i), (norm_index (shape1 a) j);
    discriminate.
Qed.

Lemma never_exits_full (n0 n1 : Z) (v : cell) : never_exits (full n0 n1 v).
Proof. intros code. unfold full. destruct (_ || _); discriminate. Qed.

Lemma never_exits_py_min (l : list R) : never_exits (py_min l).
Proof. intros code. destruct l; discriminate. Qed.

Lemma never_exits_py_max (l : list R) : never_exits (py_max l).
Proof. intros code. destruct l; discriminate. Qed.

Create HintDb quiet.

#[local] Hint Resolve never_exits_ret never_exits_log never_exits_getitem
  never_exits_setitem1 never_exits_setitem2 never_exits_full
  never_exits_py_min never_exits_py_max : quiet.

(** One step through a computation: a bind, then whatever it binds. *)
Ltac quiet_step :=
  first
    [ solve [auto with quiet]
    | apply never_exits_bind; [| intros ?] ].

Lemma never_exits_get_bounding_box (latlons : list (R * R)) :
  never_exits (get_bounding_box latlons).
Proof. unfold get_bounding_box. repeat quiet_step. Qed.

Lemma never_exits_check_period_loop (p0 : R) (l : list R) (pcounter : Z) :
  never_exits (check_period_loop p0 pcounter l).
Proof.
  revert pcounter. induction l as [| per rest IH]; intros pcounter;
    cbn [check_period_loop].
  - auto with quiet.
  - destruct (Req_dec_T per p0); [apply IH | repeat quiet_step].
Qed.

Lemma never_exits_check_period_values (l : list R) :
  never_exits (check_period_values l).
Proof.
  unfold check_period_values. repeat quiet_step.
  apply never_exits_check_period_loop.
Qed.

Lemma never_exits_raster_loop (latlons : list (R * R)) (pendep : list R)
    (minlat minlon pixelsize : R) :
  ∀ iter zdep,
    never_exits (raster_loop latlons iter pendep minlat minlon pixelsize zdep).
Proof.
  induction latlons as [| p rest IH]; intros iter zdep.
  - simpl. auto with quiet.
  - rewrite raster_loop_cons. repeat quiet_step.
Qed.

Lemma never_exits_points_loop (latlons : list (R * R)) (pendep : list R)
    (minlat minlon pixelsize : R) (zdep : ndarray) :
  ∀ iter points values,
    never_exits (points_loop latlons iter pendep minlat minlon pixelsize zdep
                   points values).
Proof.
  induction latlons as [| p rest IH]; intros iter points values.
  - simpl. auto with quiet.
  - rewrite points_loop_cons. repeat quiet_step.
Qed.

Lemma never_exits_grid_samples (latlons : list (R * R)) (pendep : list R) :
  never_exits (grid_samples latlons pendep).
Proof.
  unfold grid_samples.
  apply never_exits_bind; [apply never_exits_get_bounding_box | intros bbox].
  repeat quiet_step.
  - apply never_exits_raster_loop.
  - apply never_exits_points_loop.
  - match goal with
    | |- never_exits (let '(_, _) := ?x in _) => destruct x
    end.
    auto with quiet.
Qed.

Lemma never_exits_penetration_depth_of (zeta : Z_obj) (i : Z)
    (whichrho : string) (per : R) :
  valid_selector whichrho →
  never_exits (penetration_depth_of zeta i whichrho per).
Proof.
  intros Hsel. unfold penetration_depth_of.
  destruct Hsel as [-> | [-> | ->]]; simpl; repeat quiet_step.
Qed.

Lemma never_exits_penetration_depth_loop (whichrho : string) (i : Z)
    (files : list MT_obj) :
  valid_selector whichrho →
  ∀ stations periods pendep latlons,
    never_exits (penetration_depth_loop files i whichrho
                   stations periods pendep latlons).
Proof.
  intros Hsel. induction files as [| s rest IH];
    intros stations periods pendep latlons.
  - simpl. auto with quiet.
  - cbn [penetration_depth_loop].
    destruct (i >=? Z.of_nat (length (freq (mt_Z s))))%Z.
    + intros code. discriminate.
    + apply never_exits_bind; [auto with quiet | intros f].
      apply never_exits_bind;
        [apply never_exits_penetration_depth_of; exact Hsel | intros d].
      apply IH.
Qed.

Lemma never_exits_get_penetration_depth (whichrho : string) (i : Z)
    (files : list MT_obj) :
  valid_selector whichrho →
  never_exits (get_penetration_depth files i whichrho).
Proof.
  intros Hsel. unfold get_penetration_depth.
  apply never_exits_bind;
    [apply never_exits_penetration_depth_loop; exact Hsel |].
  intros [[[st pe] pd] ll].
  apply never_exits_bind; [apply never_exits_check_period_values |].
  intros b. auto with quiet.
Qed.

Lemma never_exits_plot_latlon_depth_profile
    (glob_edi : string → list MT_obj) (edi_dir : string) (period_index : Z)
    (zcomponent : string) :
  valid_selector zcomponent →
  never_exits (plot_latlon_depth_profile glob_edi edi_dir period_index
                 zcomponent).
Proof.
  intros Hsel. unfold plot_latlon_depth_profile.
  apply never_exits_bind; [auto with quiet | intros _].
  apply never_exits_bind;
    [apply never_exits_get_penetration_depth; exact Hsel |].
  intros [[[st pe] pd] ll].
  apply never_exits_bind; [apply never_exits_check_period_values |].
  intros [|]; simpl.
  - apply never_exits_bind; [auto with quiet | intros p0].
    apply never_exits_grid_samples.
  - intros code. discriminate.
Qed.

(** X16. The command line never ends with status 100: it always calls
    [plot_latlon_depth_profile] with the selector det, so its status is
    1 (usage, or an exception) or 0, for every argument list and every
    content of the file system. *)
Theorem main_status_is_0_or_1
    (glob_edi : string → list MT_obj) (isdir : string → bool)
    (py_int : string → option Z) (argv : list string) :
  exit_status (main glob_edi isdir py_int argv) = 0%Z
  ∨ exit_status (main glob_edi isdir py_int argv) = 1%Z.
Proof.
  assert (Hquiet : ∀ m : M unit,
            never_exits m → exit_status m = 0%Z ∨ exit_status m = 1%Z).
  { intros m Hm. unfold exit_status.
    destruct (result m) as [a | e] eqn:E; [left; reflexivity |].
    destruct e; try (right; reflexivity).
    exfalso. exact (Hm code E). }
  unfold main.
  destruct (Z.of_nat (length argv) <? 2)%Z; [right; reflexivity |].
  apply Hquiet.
  apply never_exits_bind; [auto with quiet | intros a1].
  destruct (isdir a1); [| auto with quiet].
  apply never_exits_bind; [auto with quiet | intros a2].
  apply never_exits_bind.
  { destruct (py_int a2); [auto with quiet |]. intros code. discriminate. }
  intros n.
  apply never_exits_bind; [| intros ?; auto with quiet].
  apply never_exits_plot_latlon_depth_profile. right. right. reflexivity.
Qed.

(** ** The arguments of the command line *)

Lemma getitem_second {A} (x0 x1 : A) (rest : list A) :
  getitem (x0 :: x1 :: rest) 1 = mret x1.
Proof. apply (getitem_lookup _ 1). reflexivity. Qed.

Lemma getitem_third {A} (x0 x1 x2 : A) (rest : list A) :
  getitem (x0 :: x1 :: x2 :: rest) 2 = mret x2.
Proof. apply (getitem_lookup _ 2). reflexivity. Qed.

(** X17. A first argument that is not a directory ends the wrapper
    normally, with status 0, before any station file is looked at,
    whatever arguments follow. *)
Theorem main_not_a_directory
    (glob_edi : string → list MT_obj) (isdir : string → bool)
    (py_int : string → option Z) (prog a1 : string) (rest : list string) :
  isdir a1 = false →
  main glob_edi isdir py_int (prog :: a1 :: rest) = mret tt
  ∧ exit_status (main glob_edi isdir py_int (prog :: a1 :: rest)) = 0%Z.
Proof.
  intros Hdir.
  assert (H : main glob_edi isdir py_int (prog :: a1 :: rest) = mret tt).
  { unfold main.
    destruct (Z.ltb_spec (Z.of_nat (length (prog :: a1 :: rest))) 2);
      [simpl in *; lia |].
    rewrite getitem_second, bind_ret_l, Hdir. reflexivity. }
  rewrite H. split; reflexivity.
Qed.

Lemma main_not_a_directory_witness :
  main (λ _, []) (λ _, false) (λ _, None) ["prog"; "x"; "3"]%string = mret tt
  ∧ exit_status (main (λ _, []) (λ _, false) (λ _, None)
                   ["prog"; "x"; "3"]%string) = 0%Z.
Proof.
  apply (main_not_a_directory (λ _, []) (λ _, false) (λ _, None)
           "prog" "x" ["3"%string]).
  reflexivity.
Defined.

(** X18. With a directory as first argument, a missing index ends the
    wrapper with [IndexError] and an index that is not an integer with
    [ValueError]; both give status 1, and no station file is read. *)
Theorem main_index_argument_errors
    (glob_edi : string → list MT_obj) (isdir : string → bool)
    (py_int : string → option Z) (prog edi_dir : string) :
  isdir edi_dir = true →
  (main glob_edi isdir py_int [prog; edi_dir] = raise IndexError
   ∧ exit_status (main glob_edi isdir py_int [prog; edi_dir]) = 1%Z)
  ∧ ∀ a2 rest,
      py_int a2 = None →
      main glob_edi isdir py_int (prog :: edi_dir :: a2 :: rest)
        = raise ValueError
      ∧ exit_status (main glob_edi isdir py_int (prog :: edi_dir :: a2 :: rest))
        = 1%Z.
Proof.
  intros Hdir. split.
  - assert (H : main glob_edi isdir py_int [prog; edi_dir] = raise IndexError).
    { unfold main. simpl Z.ltb. cbv iota.
      rewrite getitem_second, bind_ret_l, Hdir. reflexivity. }
    rewrite H. split; reflexivity.
  - intros a2 rest Hint.
    assert (H : main glob_edi isdir py_int (prog :: edi_dir :: a2 :: rest)
                = raise ValueError).
    { unfold main.
      destruct (Z.ltb_spec
                  (Z.of_nat (length (prog :: edi_dir :: a2 :: rest))) 2);
        [simpl in *; lia |].
      rewrite getitem_second, bind_ret_l, Hdir.
      rewrite getitem_third, bind_ret_l, Hint. reflexivity. }
    rewrite H. split; reflexivity.
Qed.

Lemma main_index_argument_errors_witness :
  (main (λ _, [station_a]) (λ _, true) (λ _, None) ["prog"; "d"]%string
   = raise IndexError
   ∧ exit_status (main (λ _, [station_a]) (λ _, true) (λ _, None)
                    ["prog"; "d"]%string) = 1%Z)
  ∧ ∀ a2 rest,
      (λ _ : string, @None Z) a2 = None →
      main (λ _, [station_a]) (λ _, true) (λ _, None)
        ("prog" :: "d" :: a2 :: rest)%string
        = raise ValueError
      ∧ exit_status (main (λ _, [station_a]) (λ _, true) (λ _, None)
                       ("prog" :: "d" :: a2 :: rest)%string)
        = 1%Z.
Proof.
  apply (main_index_argument_errors (λ _, [station_a]) (λ _, true)
           (λ _, None) "prog" "d").
  reflexivity.
Defined.

(** X19. With a directory and an integer index the wrapper does what
    [plot_latlon_depth_profile] does for the selector det: it ends
    normally when that returns and with the same exception when that
    raises; arguments after the index are ignored. *)
Theorem main_runs_plot_latlon_depth_profile
    (glob_edi : string → list MT_obj) (isdir : string → bool)
    (py_int : string → option Z) (prog edi_dir a2 : string)
    (rest : list string) (period_index : Z) :
  isdir edi_dir = true → py_int a2 = Some period_index →
  result (main glob_edi isdir py_int (prog :: edi_dir :: a2 :: rest))
  = match result (plot_latlon_depth_profile glob_edi edi_dir period_index
                    "det") with
    | Return _ => Return tt
    | Raise e => Raise e
    end
  ∧ exit_status (main glob_edi isdir py_int (prog :: edi_dir :: a2 :: rest))
    = exit_status (plot_latlon_depth_profile glob_edi edi_dir period_index
                     "det").
Proof.
  intros Hdir Hint.
  assert (H : result (main glob_edi isdir py_int
                        (prog :: edi_dir :: a2 :: rest))
              = match result (plot_latlon_depth_profile glob_edi edi_dir
                                period_index "det") with
                | Return _ => Return tt
                | Raise e => Raise e
                end).
  { unfold main.
    destruct (Z.ltb_spec
                (Z.of_nat (length (prog :: edi_dir :: a2 :: rest))) 2);
      [simpl in *; lia |].
    rewrite getitem_second, bind_ret_l, Hdir.
    rewrite getitem_third, bind_ret_l, Hint, bind_ret_l, result_bind.
    destruct (result (plot_latlon_depth_profile _ _ _ _)); reflexivity. }
  split; [exact H |].
  unfold exit_status. rewrite H.
  destruct (result (plot_latlon_depth_profile _ _ _ _)); reflexivity.
Qed.

Lemma main_runs_plot_latlon_depth_profile_witness :
  result (main same_cell_batch (λ _, true) (λ _, Some 0%Z)
            ["prog"; "d"; "0"; "extra"]%string)
  = match result (plot_latlon_depth_profile same_cell_batch "d" 0 "det") with
    | Return _ => Return tt
    | Raise e => Raise e
    end
  ∧ exit_status (main same_cell_batch (λ _, true) (λ _, Some 0%Z)
                   ["prog"; "d"; "0"; "extra"]%string)
    = exit_status (plot_latlon_depth_profile same_cell_batch "d" 0 "det").
Proof.
  apply (main_runs_plot_latlon_depth_profile same_cell_batch (λ _, true)
           (λ _, Some 0%Z) "prog" "d" "0" ["extra"%string] 0);
    reflexivity.
Defined.

(** ** What a period mismatch leaves in the log of [get_penetration_depth] *)

Lemma check_period_loop_log (p0 : R) (l : list R) (pcounter : Z) :
  ∃ b : bool,
    result (check_period_loop p0 pcounter l) = Return b
    ∧ ∀ lv, count_level lv (logs (check_period_loop p0 pcounter l))
            = if b then 0%nat
              else if decide (WARN = lv) then 1%nat else 0%nat.
Proof.
  revert pcounter. induction l as [| per rest IH]; intros pcounter;
    cbn [check_period_loop].
  - exists true. split; reflexivity.
  - destruct (Req_dec_T per p0); [apply IH |].
    exists false. split; [reflexivity |]. intros lv.
    rewrite logs_log, count_level_cons.
    change (logs (mret ?x)) with (@nil logrec).
    change (count_level lv []) with 0%nat.
    destruct (decide (WARN = lv)); reflexivity.
Qed.

Lemma check_period_values_log (p0 : R) (rest : list R) :
  ∃ b : bool,
    result (check_period_values (p0 :: rest)) = Return b
    ∧ ∀ lv, lv ≠ DEBUG →
        count_level lv (logs (check_period_values (p0 :: rest)))
        = if b then 0%nat
          else if decide (WARN = lv) then 1%nat else 0%nat.
Proof.
  destruct (check_period_loop_log p0 (p0 :: rest) 0) as (b & Hb & Hlog).
  exists b. unfold check_period_values.
  change (getitem (p0 :: rest) 0) with (mret p0 : M R).
  rewrite bind_ret_l, result_log. split; [exact Hb |].
  intros lv Hlv. rewrite logs_log, count_level_cons, Hlog.
  rewrite decide_False by congruence. reflexivity.
Qed.

(** X20. For a batch that [get_penetration_depth] can compute, a period
    mismatch leaves exactly one warning in the log and nothing above the
    debug level otherwise: one WARN record when the periods disagree, none
    when they agree, and never an ERROR or CRITICAL record. *)
Theorem period_mismatch_is_only_warned
    (whichrho : string) (i : nat) (files : list MT_obj) :
  valid_selector whichrho → files ≠ [] → Forall (station_ready i) files →
  ∃ b : bool,
    result (check_period_values (map (spec_period i) files)) = Return b
    ∧ count_level WARN
        (logs (get_penetration_depth files (Z.of_nat i) whichrho))
      = (if b then 0 else 1)%nat
    ∧ count_level ERROR
        (logs (get_penetration_depth files (Z.of_nat i) whichrho)) = 0%nat
    ∧ count_level CRITICAL
        (logs (get_penetration_depth files (Z.of_nat i) whichrho)) = 0%nat.
Proof.
  intros Hsel Hne Hall.
  assert (Hloop : penetration_depth_loop files (Z.of_nat i) whichrho
                    [] [] [] []
                  = mret (map station files, map (spec_period i) files,
                          map (λ s, - spec_depth whichrho i s) files,
                          map (λ s, (lat s, lon s)) files)).
  { pose proof (penetration_depth_loop_app whichrho (Z.of_nat i) (λ _, i)
                  files [] Hsel) as H.
    rewrite app_nil_r in H. apply H.
    eapply Forall_impl; [exact Hall |].
    intros t (Hi & Hrho & Hdet). repeat split; try assumption.
    apply norm_index_nat. exact Hi. }
  unfold get_penetration_depth. rewrite Hloop, bind_ret_l.
  destruct files as [| s rest]; [contradiction |].
  destruct (check_period_values_log (spec_period i s)
              (map (spec_period i) rest)) as (b & Hb & Hlog).
  exists b. simpl map. split; [exact Hb |].
  assert (Hlogs : ∀ lv, lv ≠ DEBUG →
            count_level lv
              (logs (check_period_values
                       (spec_period i s :: map (spec_period i) rest);;
                     mret (station s :: map station rest,
                           spec_period i s :: map (spec_period i) rest,
                           - spec_depth whichrho i s
                             :: map (λ s, - spec_depth whichrho i s) rest,
                           (lat s, lon s) :: map (λ s, (lat s, lon s)) rest)))
            = if b then 0%nat
              else if decide (WARN = lv) then 1%nat else 0%nat).
  { intros lv Hlv. rewrite logs_bind, Hb, count_level_app, (Hlog lv Hlv).
    change (logs (mret ?x)) with (@nil logrec).
    change (count_level lv []) with 0%nat. lia. }
  rewrite !Hlogs by discriminate.
  destruct b; repeat split; reflexivity.
Qed.

Lemma period_mismatch_is_only_warned_witness :
  ∃ b : bool,
    result (check_period_values (map (spec_period 0) (mismatch_batch "d")))
      = Return b
    ∧ count_level WARN
        (logs (get_penetration_depth (mismatch_batch "d") (Z.of_nat 0) "det"))
      = (if b then 0 else 1)%nat
    ∧ count_level ERROR
        (logs (get_penetration_depth (mismatch_batch "d") (Z.of_nat 0) "det"))
      = 0%nat
    ∧ count_level CRITICAL
        (logs (get_penetration_depth (mismatch_batch "d") (Z.of_nat 0) "det"))
      = 0%nat.
Proof.
  apply (period_mismatch_is_only_warned "det" 0 (mismatch_batch "d")).
  - right. right. reflexivity.
  - discriminate.
  - repeat constructor; simpl; lia.
Defined.

(** ** The bar chart *)

(** A station with a frequency and a resistivity array at position [i]. *)
Definition bar_ready (i : nat) (s : MT_obj) : Prop :=
  (i < length (freq (mt_Z s)))%nat
  ∧ length (resistivity (mt_Z s)) = length (freq (mt_Z s)).

Section BarChart.

Variable glob_edi : string → list MT_obj.
Variable isdir : string → bool.
Variable read_edi : string → M MT_obj.

Lemma bar3d_depth_loop_app (i : nat) (pre : list MT_obj)
    (rest : list (M MT_obj)) :
  Forall (bar_ready i) pre →
  ∀ periods pen_depth stations latlons,
    bar3d_depth_loop (map mret pre ++ rest) (Z.of_nat i)
      periods pen_depth stations latlons
    = bar3d_depth_loop rest (Z.of_nat i)
        (periods ++ map (spec_period i) pre)
        (pen_depth ++ map (λ s, - spec_depth "zxy" i s) pre)
        (stations ++ map station pre)
        (latlons ++ map (λ s, (lat s, lon s)) pre).
Proof.
  induction 1 as [| s pre [Hi Hrho] Hpre IH];
    intros periods pen_depth stations latlons.
  - simpl. rewrite !app_nil_r. reflexivity.
  - simpl map. simpl app. cbn [bar3d_depth_loop]. rewrite bind_ret_l.
    destruct (Z.geb_spec (Z.of_nat i) (Z.of_nat (length (freq (mt_Z s)))));
      [lia |].
    rewrite (getitem_nth (freq (mt_Z s)) i 0 Hi), bind_ret_l.
    rewrite (getitem_nth (resistivity (mt_Z s)) i (mk_mat2 0 0 0 0))
      by lia.
    rewrite bind_ret_l, IH.
    change (1 / nth i (freq (mt_Z s)) 0) with (spec_period i s).
    replace (- scale_param
             * sqrt (m01 (nth i (resistivity (mt_Z s)) (mk_mat2 0 0 0 0))
                     * spec_period i s))
      with (- spec_depth "zxy" i s)
      by (unfold spec_depth; simpl; ring).
    rewrite <- !app_assoc. reflexivity.
Qed.

Lemma bar3d_bars_loop_returns (pen_depth : list R) (LL_lat LL_lon : R)
    (pixelsize : R) (latlons : list (R * R)) :
  ∀ iter xpos ypos dz,
    (iter + length latlons <= length pen_depth)%nat →
    bar3d_bars_loop latlons iter pen_depth LL_lat LL_lon pixelsize
      xpos ypos dz
    = mret (xpos ++ map (λ p, (get_index p.1 p.2 LL_lat LL_lon pixelsize 1).1)
                      latlons,
            ypos ++ map (λ p, (get_index p.1 p.2 LL_lat LL_lon pixelsize 1).2)
                      latlons,
            dz ++ map Rabs (take (length latlons) (drop iter pen_depth))).
Proof.
  induction latlons as [| p rest IH]; intros iter xpos ypos dz Hlen.
  - simpl. rewrite !app_nil_r. reflexivity.
  - simpl in Hlen. cbn [bar3d_bars_loop].
    destruct (lookup_lt_is_Some_2 pen_depth iter) as [d Hd]; [lia |].
    rewrite (getitem_lookup _ _ _ Hd), bind_ret_l.
    rewrite IH by lia.
    rewrite (drop_S pen_depth d iter Hd). simpl.
    rewrite <- !app_assoc. reflexivity.
Qed.



Lemma plot_bar3d_depth_spec (edi_dir : string) (i : nat) :
  isdir edi_dir = true → glob_edi edi_dir ≠ [] →
  Forall (bar_ready i) (glob_edi edi_dir) →
  ∃ minlon maxlon minlat maxlat : R,
    get_bounding_box (map (λ s, (lat s, lon s)) (glob_edi edi_dir))
      = mret ((minlon, maxlon), (minlat, maxlat))
    ∧ (∀ s, s ∈ glob_edi edi_dir → minlat <= lat s ∧ minlon <= lon s)
    ∧ result (plot_bar3d_depth glob_edi isdir read_edi edi_dir (Z.of_nat i))
      = Return
          (map (λ s, (get_index (lat s) (lon s) (minlat - 3 * 0.001)
                        (minlon - 3 * 0.001) 0.001 1).1) (glob_edi edi_dir),
           map (λ s, (get_index (lat s) (lon s) (minlat - 3 * 0.001)
                        (minlon - 3 * 0.001) 0.001 1).2) (glob_edi edi_dir),
           replicate (length (glob_edi edi_dir)) 0,
           replicate (length (glob_edi edi_dir)) 1,
           replicate (length (glob_edi edi_dir)) 1,
           map (λ s, Rabs (- spec_depth "zxy" i s)) (glob_edi edi_dir)).
Proof.
  intros Hdir Hne Hready.
  destruct (glob_edi edi_dir) as [| s0 rest] eqn:Hglob; [contradiction |].
  destruct (get_bounding_box_bounds (lat s0, lon s0)
              (map (λ s, (lat s, lon s)) rest))
    as (minlon & maxlon & minlat & maxlat & Hbox & _ & _ & _ & _ & _ & _ & Hin).
  exists minlon, maxlon, minlat, maxlat.
  split; [exact Hbox |]. split.
  { intros s Hs.
    destruct (Hin (lat s, lon s)) as [Hlat Hlon].
    - apply (list_elem_of_fmap_2 (λ s, (lat s, lon s))) in Hs. exact Hs.
    - simpl in Hlat, Hlon. lra. }
  unfold plot_bar3d_depth. rewrite Hdir, Hglob.
  rewrite (bind_returns _ _ (map mret (s0 :: rest))) by reflexivity.
  pose proof (bar3d_depth_loop_app i (s0 :: rest) [] Hready [] [] [] [])
    as Hloop.
  rewrite app_nil_r in Hloop. rewrite Hloop.
  cbn [bar3d_depth_loop app].
  match goal with
  | |- result (mret ?a ≫= ?f) = _ => rewrite (bind_ret_l a f)
  end.
  cbv beta iota.
  rewrite get_bounding_box_cons in Hbox.
  injection Hbox as Hminlon Hmaxlon Hminlat Hmaxlat.
  cbn [fst snd] in Hminlon, Hmaxlon, Hminlat, Hmaxlat.
  cbn [map py_min py_max fst snd].
  rewrite !bind_ret_l, Hminlon, Hminlat.
  rewrite bar3d_bars_loop_returns by (simpl; rewrite !length_map; lia).
  match goal with
  | |- result (mret ?a ≫= ?f) = _ => rewrite (bind_ret_l a f)
  end.
  cbv beta iota.
  change (getitem (spec_period i s0 :: map (spec_period i) rest) 0)
    with (mret (spec_period i s0) : M R).
  rewrite bind_ret_l. cbn [app].
  rewrite drop_0, take_ge by (simpl; rewrite !length_map; lia).
  change ((lat s0, lon s0) :: map (λ s, (lat s, lon s)) rest)
    with (map (λ s, (lat s, lon s)) (s0 :: rest)).
  change (- spec_depth "zxy" i s0
          :: map (λ s, - spec_depth "zxy" i s) rest)
    with (map (λ s, - spec_depth "zxy" i s) (s0 :: rest)).
  rewrite !map_map, !length_map. reflexivity.
Qed.

End BarChart.



(** X22. The bars of [plot_bar3d_depth] have the heights abs(depth) of
    the depths that [get_penetration_depth] computes for the selector zxy
    on the same directory and index: the bar chart has no selector and
    always shows that component; no height is negative. *)
Theorem bar_heights_are_zxy_magnitudes
    (glob_edi : string → list MT_obj) (isdir : string → bool)
    (read_edi : string → M MT_obj) (edi_dir : string) (i : nat) :
  isdir edi_dir = true → glob_edi edi_dir ≠ [] →
  Forall (station_ready i) (glob_edi edi_dir) →
  ∃ (stations : list string) (periods pendep : list R)
    (latlons : list (R * R)) (xpos ypos : list Z) (zpos dx dy : list R),
    result (get_penetration_depth (glob_edi edi_dir) (Z.of_nat i) "zxy")
      = Return (stations, periods, pendep, latlons)
    ∧ result (plot_bar3d_depth glob_edi isdir read_edi edi_dir (Z.of_nat i))
      = Return (xpos, ypos, zpos, dx, dy, map Rabs pendep)
    ∧ ∀ k h, map Rabs pendep !! k = Some h → 0 <= h.
Proof.
  intros Hdir Hne Hready.
  assert (Hbar : Forall (bar_ready i) (glob_edi edi_dir)).
  { eapply Forall_impl; [exact Hready |].
    intros s (Hi & Hrho & _). split; assumption. }
  destruct (plot_bar3d_depth_spec glob_edi isdir read_edi edi_dir i
              Hdir Hne Hbar)
    as (minlon & maxlon & minlat & maxlat & _ & _ & Hplot).
  eexists _, _, _, _, _, _, _, _, _. split.
  { apply (get_penetration_depth_returns "zxy" i (glob_edi edi_dir));
      [left; reflexivity | exact Hne | exact Hready]. }
  split.
  { rewrite Hplot, map_map. reflexivity. }
  intros k h Hh. rewrite list_lookup_fmap in Hh.
  destruct (_ !! k); [| discriminate Hh].
  injection Hh as <-. apply Rabs_pos.
Qed.

Lemma bar_heights_are_zxy_magnitudes_witness :
  ∃ (stations : list string) (periods pendep : list R)
    (latlons : list (R * R)) (xpos ypos : list Z) (zpos dx dy : list R),
    result (get_penetration_depth (mismatch_batch "d") (Z.of_nat 0) "zxy")
      = Return (stations, periods, pendep, latlons)
    ∧ result (plot_bar3d_depth mismatch_batch (λ _, true)
                (λ _, raise ValueError) "d" (Z.of_nat 0))
      = Return (xpos, ypos, zpos, dx, dy, map Rabs pendep)
    ∧ ∀ k h, map Rabs pendep !! k = Some h → 0 <= h.
Proof.
  apply (bar_heights_are_zxy_magnitudes mismatch_batch (λ _, true)
           (λ _, raise ValueError) "d" 0).
  - reflexivity.
  - discriminate.
  - repeat constructor; simpl; lia.
Defined.

(** X23. A station without a frequency at the index ends
    [plot_bar3d_depth] with its own index exception, whatever stations
    follow it in the directory. *)
Theorem bar_index_out_of_range
    (glob_edi : string → list MT_obj) (isdir : string → bool)
    (read_edi : string → M MT_obj) (edi_dir : string) (i : nat)
    (pre post : list MT_obj) (s : MT_obj) :
  isdir edi_dir = true → glob_edi edi_dir = pre ++ s :: post →
  Forall (bar_ready i) pre → (length (freq (mt_Z s)) <= i)%nat →
  result (plot_bar3d_depth glob_edi isdir read_edi edi_dir (Z.of_nat i))
  = Raise (Exception "Error: input period index must be less than the number of freqs in zeta.freq=%s").
Proof.
  intros Hdir Hglob Hpre Hshort.
  unfold plot_bar3d_depth. rewrite Hdir, Hglob.
  rewrite (bind_returns _ _ (map mret (pre ++ s :: post))) by reflexivity.
  apply bind_raises.
  rewrite map_app, (bar3d_depth_loop_app i pre _ Hpre).
  simpl map. cbn [bar3d_depth_loop]. rewrite bind_ret_l.
  destruct (Z.geb_spec (Z.of_nat i) (Z.of_nat (length (freq (mt_Z s)))));
    [reflexivity | lia].
Qed.

Lemma bar_index_out_of_range_witness :
  result (plot_bar3d_depth (λ _, [station_a] ++ station_empty :: [station_b])
            (λ _, true) (λ _, raise ValueError) "d" (Z.of_nat 0))
  = Raise (Exception "Error: input period index must be less than the number of freqs in zeta.freq=%s").
Proof.
  apply (bar_index_out_of_range
           (λ _, [station_a] ++ station_empty :: [station_b])
           (λ _, true) (λ _, raise ValueError) "d" 0
           [station_a] [station_b] station_empty).
  - reflexivity.
  - reflexivity.
  - repeat constructor; simpl; lia.
  - simpl. lia.
Defined.

(** X25. A directory without station files ends [plot_bar3d_depth] with
    [ValueError], raised by [min] of the empty list of latitudes, for
    every index. *)
Theorem bar_empty_directory
    (glob_edi : string → list MT_obj) (isdir : string → bool)
    (read_edi : string → M MT_obj) (edi_dir : string) (per_index : Z) :
  isdir edi_dir = true → glob_edi edi_dir = [] →
  result (plot_bar3d_depth glob_edi isdir read_edi edi_dir per_index)
  = Raise ValueError.
Proof.
  intros Hdir Hglob. unfold plot_bar3d_depth. rewrite Hdir, Hglob.
  reflexivity.
Qed.

Lemma bar_empty_directory_witness :
  result (plot_bar3d_depth (λ _, []) (λ _, true) (λ _, raise ValueError)
            "d" 0)
  = Raise ValueError.
Proof.
  apply (bar_empty_directory (λ _, []) (λ _, true) (λ _, raise ValueError)
           "d" 0); reflexivity.
Defined.

(** ** The bounding box and the order of the stations *)

Lemma foldl_min_unique (x x' : R) (xs xs' : list R) :
  (∀ y, y ∈ x :: xs ↔ y ∈ x' :: xs') →
  foldl (λ m y, if Rlt_dec y m then y else m) x xs
  = foldl (λ m y, if Rlt_dec y m then y else m) x' xs'.
Proof.
  intros Hsame.
  destruct (foldl_min_spec xs x) as [Hin Hle].
  destruct (foldl_min_spec xs' x') as [Hin' Hle'].
  apply Rle_antisym.
  - apply Hle, Hsame, Hin'.
  - apply Hle', Hsame, Hin.
Qed.

Lemma foldl_max_unique (x x' : R) (xs xs' : list R) :
  (∀ y, y ∈ x :: xs ↔ y ∈ x' :: xs') →
  foldl (λ m y, if Rgt_dec y m then y else m) x xs
  = foldl (λ m y, if Rgt_dec y m then y else m) x' xs'.
Proof.
  intros Hsame.
  destruct (foldl_max_spec xs x) as [Hin Hle].
  destruct (foldl_max_spec xs' x') as [Hin' Hle'].
  apply Rle_antisym.
  - apply Hle', Hsame, Hin.
  - apply Hle, Hsame, Hin'.
Qed.

(** X24. The bounding box depends only on which coordinates occur, not on
    their order or on how often one occurs: two lists with the same
    members give the same box. *)
Theorem get_bounding_box_ignores_order (latlons latlons' : list (R * R)) :
  (∀ p, p ∈ latlons ↔ p ∈ latlons') →
  get_bounding_box latlons = get_bounding_box latlons'.
Proof.
  intros Hsame.
  destruct latlons as [| p rest], latlons' as [| p' rest'].
  - reflexivity.
  - exfalso. eapply not_elem_of_nil, Hsame. left.
  - exfalso. eapply not_elem_of_nil, Hsame. left.
  - assert (Hmap : ∀ (g : R * R → R) y,
              y ∈ g p :: map g rest ↔ y ∈ g p' :: map g rest').
    { intros g y.
      change (y ∈ map g (p :: rest) ↔ y ∈ map g (p' :: rest')).
      rewrite !list_elem_of_fmap. split; intros (q & -> & Hq);
        exists q; (split; [reflexivity | apply Hsame; exact Hq]). }
    rewrite !get_bounding_box_cons.
    rewrite (foldl_min_unique p.2 p'.2 _ _ (Hmap snd)),
      (foldl_max_unique p.2 p'.2 _ _ (Hmap snd)),
      (foldl_min_unique p.1 p'.1 _ _ (Hmap fst)),
      (foldl_max_unique p.1 p'.1 _ _ (Hmap fst)).
    reflexivity.
Qed.

Lemma get_bounding_box_ignores_order_witness :
  get_bounding_box [(10, 20); (15, 25); (5, 30)]
  = get_bounding_box [(5, 30); (10, 20); (15, 25); (10, 20)].
Proof.
  apply (get_bounding_box_ignores_order [(10, 20); (15, 25); (5, 30)]
           [(5, 30); (10, 20); (15, 25); (10, 20)]).
  intros p. rewrite !elem_of_cons. tauto.
Defined.
